(** * hll_rcon_tool front-end: scoreboard polling, player table, grouped list

    A shallow embedding of the logic found in
    - [rcongui/src/components/Scoreboard/LiveScore.js]
      ([LiveScore]: [getData], the interval effect, the pause link, the
      values derived while rendering; [LiveHeader]: [nextMapString]);
    - [rcongui_public/src/components/game/statistics/game-table.tsx]
      ([DataTable]: [playerFilterOptions], the team counts, the export
      button, the table body, the focus effect) and the [SubList] component
      that follows it.

    JavaScript values are untyped; they are modelled by the inductive [val]
    below.  Exceptions thrown by the JavaScript code ([TypeError]) are
    modelled by [None] in the option monad. *)

From Stdlib Require Import ZArith Lia OrderedTypeEx.
From stdpp Require Import gmap strings list sorting pretty.

Open Scope Z_scope.

Set Warnings "-register-all".

(** ** JavaScript / Immutable.js values *)

Module JS.

(** Values that flow through the components.  Numbers are restricted to the
    integers that a double holds exactly (vote counts, seconds, kill counts).
    Strings are held in UTF-8.  [VList] and [VMap] stand both for plain
    arrays / objects produced by the JSON parser and for the Immutable.js
    [List] / [Map] that [fromJS] builds from them; a [VMap] holds every key
    once, in iteration order. *)
Inductive val : Type :=
| VUndef
| VNull
| VBool (b : bool)
| VNum (n : Z)
| VStr (s : string)
| VList (l : list val)
| VMap (m : list (string * val)).

(** [fromJS] rebuilds arrays as [List] and objects as [Map], deeply; on the
    shared representation it is the identity. *)
Definition fromJS (v : val) : val := v.

(** [new iList()] and [new Map()]. *)
Definition new_iList : val := VList [].
Definition new_Map : val := VMap [].

(** ToBoolean. *)
Definition truthy (v : val) : bool :=
  match v with
  | VUndef | VNull => false
  | VBool b => b
  | VNum n => negb (n =? 0)
  | VStr s => negb (String.eqb s "")
  | VList _ | VMap _ => true
  end.

(** [a || b] *)
Definition js_or (a b : val) : val := if truthy a then a else b.

(** [v === undefined || v === null], the test made by [?.]. *)
Definition nullish (v : val) : bool :=
  match v with
  | VUndef | VNull => true
  | _ => false
  end.

(** [a === b].  Two collections are equal only when they are the same
    object.  Immutable.js keeps one empty [List] and one empty [Map], which
    every empty collection is; the other collections compared in this file
    come from different nodes of trees built by [fromJS], hence are never
    the same object. *)
Definition strict_eq (a b : val) : bool :=
  match a, b with
  | VUndef, VUndef => true
  | VNull, VNull => true
  | VBool x, VBool y => Bool.eqb x y
  | VNum x, VNum y => x =? y
  | VStr x, VStr y => String.eqb x y
  | VList [], VList [] => true
  | VMap [], VMap [] => true
  | _, _ => false
  end.

Fixpoint lookup_key (k : string) (m : list (string * val)) : option val :=
  match m with
  | [] => None
  | (k', v) :: m' => if String.eqb k k' then Some v else lookup_key k m'
  end.

(** Property read [v.k] on a plain value: a [TypeError] on [undefined] and
    [null], [undefined] when the property is missing. *)
Definition prop (v : val) (k : string) : option val :=
  match v with
  | VUndef | VNull => None
  | VMap m => Some (default VUndef (lookup_key k m))
  | _ => Some VUndef
  end.

(** Method call [v.get(k, notSet)] with a string key that is not the decimal
    form of an index (every key of the source is such a literal).  A [Map]
    answers with the stored value or [notSet]; a [List] converts the key to
    an index, finds none and answers [notSet]; anything else has no [get]
    method and the call throws. *)
Definition get_key (v : val) (k : string) (notSet : val) : option val :=
  match v with
  | VMap m => Some (default notSet (lookup_key k m))
  | VList _ => Some notSet
  | _ => None
  end.

(** Method call [v.get(i, notSet)] with a number.  A [List] counts negative
    indices from its end; the keys of a [Map] built by [fromJS] are strings,
    none of which is the number [i]. *)
Definition get_idx (v : val) (i : Z) (notSet : val) : option val :=
  match v with
  | VList l =>
      let j := if i <? 0 then Z.of_nat (length l) + i else i in
      if (0 <=? j) && (j <? Z.of_nat (length l))
      then Some (default notSet (l !! Z.to_nat j))
      else Some notSet
  | VMap _ => Some notSet
  | _ => None
  end.

(** Optional call [v?.get(k)]. *)
Definition opt_get_key (v : val) (k : string) : option val :=
  if nullish v then Some VUndef else get_key v k VUndef.

(** Optional call [v?.get(i)]. *)
Definition opt_get_idx (v : val) (i : Z) : option val :=
  if nullish v then Some VUndef else get_idx v i VUndef.

(** A byte that continues a character in UTF-8: [10xxxxxx]. *)
Definition continuation (c : Ascii.ascii) : bool :=
  let n := Ascii.N_of_ascii c in ((128 <=? n) && (n <? 192))%N.

(** The characters of a string in UTF-8: a character starts at every byte
    that is not a continuation byte. *)
Fixpoint characters (s : string) : list string :=
  match s with
  | EmptyString => []
  | String c s' =>
      match characters s' with
      | String d ds :: rest =>
          if continuation d then String c (String d ds) :: rest
          else String c EmptyString :: String d ds :: rest
      | rest => String c EmptyString :: rest
      end
  end.

(** The UTF-16 code units of a string held in UTF-8: one unit for a
    character of one to three bytes, a surrogate pair for a character of four
    bytes.  A byte that starts no character stands for itself. *)
Definition byte (c : Ascii.ascii) : Z := Z.of_N (Ascii.N_of_ascii c).

Fixpoint utf16 (s : string) : list Z :=
  match s with
  | EmptyString => []
  | String c0 s0 =>
      let b0 := byte c0 in
      if b0 <? 128 then b0 :: utf16 s0
      else
        match s0 with
        | String c1 s1 =>
            if (192 <=? b0) && (b0 <? 224) && continuation c1
            then ((b0 - 192) * 64 + (byte c1 - 128)) :: utf16 s1
            else
              match s1 with
              | String c2 s2 =>
                  if (224 <=? b0) && (b0 <? 240) && continuation c1 && continuation c2
                  then ((b0 - 224) * 4096 + (byte c1 - 128) * 64 + (byte c2 - 128))
                       :: utf16 s2
                  else
                    match s2 with
                    | String c3 s3 =>
                        if (240 <=? b0) && continuation c1 && continuation c2
                           && continuation c3
                        then
                          let cp := (b0 - 240) * 262144 + (byte c1 - 128) * 4096
                                    + (byte c2 - 128) * 64 + (byte c3 - 128) - 65536 in
                          (55296 + cp / 1024) :: (56320 + cp mod 1024) :: utf16 s3
                        else b0 :: utf16 s0
                    | EmptyString => b0 :: utf16 s0
                    end
              | EmptyString => b0 :: utf16 s0
              end
        | EmptyString => [b0]
        end
  end.

(** The order of sequences of code units: at the first difference, or the
    shorter first. *)
Fixpoint compare_units (a b : list Z) : comparison :=
  match a, b with
  | [], [] => Eq
  | [], _ :: _ => Lt
  | _ :: _, [] => Gt
  | x :: a', y :: b' =>
      match x ?= y with
      | Eq => compare_units a' b'
      | c => c
      end
  end.

(** The order that [<] and [>] put on strings: the order of their UTF-16
    code units.  Two strings with the same code units are the same string;
    the comparison of the bytes is reached only by byte sequences that are
    not UTF-8. *)
Definition string_compare (a b : string) : comparison :=
  match compare_units (utf16 a) (utf16 b) with
  | Eq => String.compare a b
  | c => c
  end.

(** [a < b] and [a <= b] on strings. *)
Definition string_lt (a b : string) : bool :=
  match string_compare a b with
  | Lt => true
  | _ => false
  end.

Definition string_le (a b : string) : bool :=
  match string_compare a b with
  | Gt => false
  | _ => true
  end.

(** The values produced by iterating [v], as array destructuring does: the
    elements of a list, the [[key, value]] entries of a map, the characters
    of a string; other values are not iterable. *)
Definition iterate (v : val) : option (list val) :=
  match v with
  | VList l => Some l
  | VMap m => Some ((λ kv, VList [VStr kv.1; kv.2]) <$> m)
  | VStr s => Some (VStr <$> characters s)
  | _ => None
  end.

(** Whether an evaluation that may throw completes. *)
Definition completes {A : Type} (o : option A) : bool :=
  match o with
  | Some _ => true
  | None => false
  end.

(** Functions of the host that the components call but do not define. *)
Record Host := {
  (** [String(c)] for an Immutable.js collection [c]. *)
  collToString : val → string;
  (** [String(n)] for a number of magnitude [2^53] or more: the shortest
      digits that tell the double from its neighbours, followed by zeros,
      and the exponent form from [1e21]. *)
  bigToString : Z → string;
  (** ToNumber on a string; [None] is [NaN]. *)
  StringToNumber : string → option Z;
  (** [process.env.REACT_APP_PUBLIC_BUILD], fixed when the pages are built. *)
  publicBuild : bool
}.

Section WithHost.
Variable host : Host.

(** ToString, as applied by a template literal.  An integer below [2^53]
    prints with all its digits. *)
Definition toStr (v : val) : string :=
  match v with
  | VUndef => "undefined"
  | VNull => "null"
  | VBool true => "true"
  | VBool false => "false"
  | VNum n =>
      if Z.abs n <? 9007199254740992 then pretty n else bigToString host n
  | VStr s => s
  | VList _ | VMap _ => collToString host v
  end.

(** ToNumber; [None] is [NaN]. *)
Definition toNumber (v : val) : option Z :=
  match v with
  | VUndef => None
  | VNull => Some 0
  | VBool b => Some (if b then 1 else 0)
  | VNum n => Some n
  | VStr s => StringToNumber host s
  | VList _ | VMap _ => None
  end.

End WithHost.

End JS.

Import JS.

(** ** LiveScore.js: the header's next-map line *)

Module LiveHeader.

Section WithHost.
Variable host : Host.

(** Line 218: the first winning map with its votes, or [["", 0]]. *)
Definition topVoted (serverState : val) : option (val * val) :=
  vs ← get_key serverState "vote_status" VUndef;
  wm ← opt_get_key vs "winning_maps";
  top ← opt_get_idx wm 0;
  items ← iterate (js_or top (VList [VStr ""; VNum 0]));
  Some (default VUndef (items !! 0%nat), default VUndef (items !! 1%nat)).

(** Line 222. *)
Definition totalVotes (serverState : val) : option val :=
  vs ← get_key serverState "vote_status" VUndef;
  opt_get_key vs "total_votes".

(** Line 223. *)
Definition nextMapName (serverState : val) : option val :=
  nm ← get_key serverState "next_map" VUndef;
  nmm ← opt_get_key nm "map";
  opt_get_key nmm "pretty_name".

(** The body of the [useMemo] callback computing [nextMapString]. *)
Definition nextMapString (serverState : val) : option string :=
  '(map, nbVotes) ← topVoted serverState;
  total ← totalVotes serverState;
  nextMap ← nextMapName serverState;
  if strict_eq map nextMap
  then Some ("Nextmap " +:+ toStr host nextMap +:+ " with " +:+ toStr host nbVotes
             +:+ " out of " +:+ toStr host total +:+ " votes")
  else Some ("Nextmap: " +:+ toStr host nextMap).

(** Lines 266 to 269 and 272 to 275: the image and the title of the map
    tile. *)
Definition mapImage (serverState : val) : option val :=
  cm ← get_key serverState "current_map" VUndef;
  m ← opt_get_key cm "map";
  if nullish m then Some VUndef else get_key m "image_name" (VStr "unknown.webp").

Definition mapTitle (serverState : val) : option val :=
  cm ← get_key serverState "current_map" new_Map;
  m ← get_key cm "map" new_Map;
  get_key m "pretty_name" VUndef.

(** Whether [LiveHeader] renders the server state without throwing. *)
Definition headerRenders (serverState : val) : bool :=
  completes (nextMapString serverState)
  && completes (mapImage serverState)
  && completes (mapTitle serverState).

End WithHost.

(** A server-state snapshot with the given winning maps, total of votes and
    name of the next map. *)
Definition snapshot (winning : list val) (total nextName : val) : val :=
  VMap [("vote_status", VMap [("winning_maps", VList winning);
                              ("total_votes", total)]);
        ("next_map", VMap [("map", VMap [("pretty_name", nextName)])])].

End LiveHeader.

(** ** LiveScore.js: values derived while rendering *)

Module LiveRender.

(** The character of a decimal digit. *)
Definition digit (d : Z) : Ascii.ascii := Ascii.ascii_of_nat (48 + Z.to_nat d).

(** Two decimal digits, as the ISO format prints hours, minutes, seconds. *)
Definition pad2 (n : Z) : string :=
  String (digit (n / 10)) (String (digit (n mod 10)) EmptyString).

(** [new Date(ms).toISOString().substr(11, 8)]: the time of day, in UTC, of
    the instant [ms] milliseconds from the epoch.  Valid while the year has
    four digits, [-62167219200000 ≤ ms < 253402300800000], where the time
    starts at character 11 of the ISO string. *)
Definition isoTime (ms : Z) : string :=
  pad2 ((ms / 3600000) mod 24) +:+ ":" +:+ pad2 ((ms / 60000) mod 60)
  +:+ ":" +:+ pad2 ((ms / 1000) mod 60).

(** Line 89: [new Date(val * 1000).toISOString().substr(11, 5)]. *)
Definition durationToHour (val : Z) : string :=
  String.substring 0 5 (isoTime (val * 1000)).

(** Line 91: [stats.get("stats", new iList())]. *)
Definition scores (stats : val) : option val :=
  get_key stats "stats" new_iList.

(** Line 123: the document title. *)
Definition documentTitle (serverState : val) : option val :=
  name ← get_key serverState "name" new_Map;
  get_key name "name" (VStr "HLL Stats").

Section WithHost.
Variable host : Host.

(** Lines 124 to 129: the time since the map started, at time [now] (in
    milliseconds).  A start that is not a number gives an invalid date, on
    which [toISOString] throws. *)
Definition started (now : Z) (serverState : val) : option string :=
  cm ← get_key serverState "current_map" new_Map;
  st ← get_key cm "start" VUndef;
  if truthy st
  then s ← toNumber host st; Some (isoTime (now - s * 1000))
  else Some "N/A".

(** A time value that [Date] holds; beyond it the date is invalid and
    [toISOString] throws. *)
Definition validTime (t : Z) : bool := Z.abs t <=? 8640000000000000.

(** Whether lines 124 to 129 complete at time [now]. *)
Definition startedRenders (now : Z) (serverState : val) : bool :=
  match (cm ← get_key serverState "current_map" new_Map; get_key cm "start" VUndef) with
  | None => false
  | Some st =>
      if truthy st
      then match toNumber host st with
           | Some s => validTime (s * 1000) && validTime (now - s * 1000)
           | None => false
           end
      else true
  end.

(** Whether [LiveScore] renders a statistics snapshot without throwing:
    lines 91 to 94 call [stats.get]. *)
Definition statsRenders (stats : val) : bool := completes (scores stats).

(** Whether [LiveScore] renders a server state at time [now] without
    throwing: the title, the elapsed time and, in the public build, the
    header.  The [Scores] component, which these files do not hold, is taken
    to render whatever it is given. *)
Definition serverStateRenders (now : Z) (serverState : val) : bool :=
  completes (documentTitle serverState)
  && startedRenders now serverState
  && (if publicBuild host then LiveHeader.headerRenders host serverState else true).

End WithHost.

End LiveRender.


(** ** LiveScore.js: the polling dashboard *)

Module LiveScore.

(** The five [React.useState] cells of [LiveScore]. *)
Record Hooks := {
  stats : val;
  serverState : val;
  isLoading : bool;
  isPaused : bool;
  refreshIntervalSec : val
}.

(** The component in its environment: the hook cells; whether the component
    is mounted; the clock, in milliseconds; the timer installed by the
    interval effect, as the time of its next firing and the timeout it was
    set with, and the nesting level of that timer, which counts its firings;
    and the promise chains started by [getData] that have not run yet:
    statistics fetches, public-info fetches, and final
    [.then(() => setIsLoading(false))] steps whose predecessor has
    completed. *)
Record World := {
  view : Hooks;
  mounted : bool;
  clock : Z;
  interval : option (Z * Z);
  nesting : nat;
  statsPending : nat;
  infoPending : nat;
  donePending : nat
}.

Definition with_view (h : Hooks) (w : World) : World :=
  {| view := h; mounted := mounted w; clock := clock w; interval := interval w;
     nesting := nesting w;
     statsPending := statsPending w; infoPending := infoPending w;
     donePending := donePending w |}.

Definition with_clock (t : Z) (w : World) : World :=
  {| view := view w; mounted := mounted w; clock := t; interval := interval w;
     nesting := nesting w;
     statsPending := statsPending w; infoPending := infoPending w;
     donePending := donePending w |}.

Definition with_timer (i : option (Z * Z)) (level : nat) (w : World) : World :=
  {| view := view w; mounted := mounted w; clock := clock w; interval := i;
     nesting := level;
     statsPending := statsPending w; infoPending := infoPending w;
     donePending := donePending w |}.

(** A timer set by the effect, which does not run inside a timer task,
    starts at nesting level 0. *)
Definition with_interval (i : option (Z * Z)) (w : World) : World :=
  with_timer i 0 w.

Definition with_pending (s i d : nat) (w : World) : World :=
  {| view := view w; mounted := mounted w; clock := clock w; interval := interval w;
     nesting := nesting w;
     statsPending := s; infoPending := i; donePending := d |}.

(** A render that throws has no error boundary above it: React unmounts the
    component.  The cleanup of the interval effect clears the timer.  The
    setters of an unmounted component do nothing, so that the chains still
    under way settle without any effect on it: their settlements are no
    events of the model, and the chains are dropped from the count. *)
Definition unmount (w : World) : World :=
  {| view := view w; mounted := false; clock := clock w; interval := None;
     nesting := 0;
     statsPending := 0; infoPending := 0; donePending := 0 |}.

(** The render that a setter called from a promise callback runs before it
    returns: when the render throws, the component is unmounted and the
    exception leaves the setter.  The boolean tells whether the setter
    returned.  Of a render, [ok] evaluates the expressions that read the
    cell just set; those that read the other cells completed at the render
    before, on the values they still hold.  The elapsed time also reads the
    clock: once it can be printed it is taken to stay so, which holds until
    the map has run for 8.64e15 milliseconds. *)
Definition render (ok : bool) (w : World) : World * bool :=
  if ok then (w, true) else (unmount w, false).

(** What settles a fetch chain: [get] or [showResponse] rejects, or the
    parsed response [data] reaches the next [.then]. *)
Inductive outcome : Type :=
| Rejected
| Resolved (data : val).

Inductive event : Type :=
| Elapse (dt : Z)               (* time passes, no timer fires *)
| Tick                          (* the interval timer fires *)
| TogglePause                   (* the pause link is clicked *)
| StatsSettled (o : outcome)    (* a statistics fetch settles *)
| InfoSettled (o : outcome)     (* a public-info fetch settles *)
| InfoDone.                     (* the last step of a public-info chain runs *)

Section WithHost.
Variable host : Host.

(** The number nearest to [x] that a double holds, ties to the even
    significand: what the multiplication of two numbers of exact product
    [x] gives. *)
Definition round53 (x : Z) : Z :=
  let a := Z.abs x in
  if a <? 2 ^ 53 then x
  else
    let e := Z.log2 a - 52 in
    let q := a / 2 ^ e in
    let r := a mod 2 ^ e in
    let up := (2 ^ e <? 2 * r) || ((2 ^ e =? 2 * r) && Z.odd q) in
    Z.sgn x * ((if up then q + 1 else q) * 2 ^ e).

(** The conversion of a timeout to the 32-bit signed integer that
    [setInterval] takes. *)
Definition toInt32 (x : Z) : Z :=
  let r := x mod 2 ^ 32 in
  if r <? 2 ^ 31 then r else r - 2 ^ 32.

(** The timeout [refreshIntervalSec * 1000] as [setInterval] takes it: the
    product is converted to a 32-bit integer, [NaN] counts as 0, and a
    negative timeout counts as 0. *)
Definition delay_ms (v : val) : Z :=
  match toNumber host v with
  | Some n => Z.max 0 (toInt32 (round53 (n * 1000)))
  | None => 0
  end.

(** The body of the second effect, run at time [t]: the timer it leaves
    installed. *)
Definition intervalEffect (h : Hooks) (t : Z) : option (Z * Z) :=
  if isPaused h then None
  else Some (t + delay_ms (refreshIntervalSec h), delay_ms (refreshIntervalSec h)).

(** The setters store the value.  Only [isPaused] and [refreshIntervalSec]
    are dependencies of the interval effect, which React cleans up and runs
    again when the stored value is not the previous one. *)
Definition setStats (v : val) (w : World) : World :=
  with_view {| stats := v; serverState := serverState (view w);
               isLoading := isLoading (view w); isPaused := isPaused (view w);
               refreshIntervalSec := refreshIntervalSec (view w) |} w.

Definition setServerState (v : val) (w : World) : World :=
  with_view {| stats := stats (view w); serverState := v;
               isLoading := isLoading (view w); isPaused := isPaused (view w);
               refreshIntervalSec := refreshIntervalSec (view w) |} w.

Definition setIsLoading (b : bool) (w : World) : World :=
  with_view {| stats := stats (view w); serverState := serverState (view w);
               isLoading := b; isPaused := isPaused (view w);
               refreshIntervalSec := refreshIntervalSec (view w) |} w.

Definition setPaused (b : bool) (w : World) : World :=
  let h := {| stats := stats (view w); serverState := serverState (view w);
              isLoading := isLoading (view w); isPaused := b;
              refreshIntervalSec := refreshIntervalSec (view w) |} in
  let w' := with_view h w in
  if Bool.eqb (isPaused (view w)) b then w'
  else with_interval (intervalEffect h (clock w)) w'.

Definition setRefreshIntervalSec (v : val) (w : World) : World :=
  let h := {| stats := stats (view w); serverState := serverState (view w);
              isLoading := isLoading (view w); isPaused := isPaused (view w);
              refreshIntervalSec := v |} in
  let w' := with_view h w in
  if strict_eq (refreshIntervalSec (view w)) v then w'
  else with_interval (intervalEffect h (clock w)) w'.

(** [getData]: raise the loading flag and start the two fetch chains. *)
Definition getData (w : World) : World :=
  with_pending (S (statsPending w)) (S (infoPending w)) (donePending w)
    (setIsLoading true w).

(** The second [.then] of the statistics chain.  An exception, thrown by
    the callback or by the render that [setStats] runs, leaves the callback,
    is handed to [handle_http_errors], and keeps what the callback had
    stored before. *)
Definition onStatsData (data : val) (w : World) : World :=
  match prop data "result" with
  | None => w
  | Some r =>
      let map_ := fromJS (js_or r new_iList) in
      let '(w1, returned) := render (LiveRender.statsRenders map_) (setStats map_ w) in
      if returned
      then match get_key map_ "refresh_interval_sec" (VNum 10) with
           | None => w1
           | Some v => setRefreshIntervalSec v w1
           end
      else w1
  end.

(** The second [.then] of the public-info chain, and whether it completed,
    so that the third one is queued. *)
Definition onInfoData (data : val) (w : World) : World * bool :=
  match prop data "result" with
  | None => (w, false)
  | Some r =>
      render (LiveRender.serverStateRenders host (clock w) (fromJS r))
        (setServerState (fromJS r) w)
  end.

(** The time to the next firing of a timer that has just fired for the
    [level]-th time: the timeout it was set with, raised to 4 milliseconds
    beyond the fifth level. *)
Definition spacing (level : nat) (period : Z) : Z :=
  if (5 <? level)%nat && (period <? 4) then 4 else period.

(** One event.  [None]: the event cannot happen in [w]. *)
Definition step (w : World) (e : event) : option World :=
  match e with
  | Elapse dt =>
      let before_timer :=
        match interval w with
        | Some (due, _) => clock w + dt <=? due
        | None => true
        end in
      if (0 <=? dt) && before_timer then Some (with_clock (clock w + dt) w)
      else None
  | Tick =>
      match interval w with
      | Some (due, period) =>
          if clock w =? due
          then
            let level := S (nesting w) in
            Some (getData
                    (with_timer (Some (due + spacing level period, period)) level w))
          else None
      | None => None
      end
  | TogglePause =>
      if mounted w then Some (setPaused (negb (isPaused (view w))) w) else None
  | StatsSettled o =>
      match statsPending w with
      | O => None
      | S n =>
          let w' := with_pending n (infoPending w) (donePending w) w in
          match o with
          | Rejected => Some w'
          | Resolved data => Some (onStatsData data w')
          end
      end
  | InfoSettled o =>
      match infoPending w with
      | O => None
      | S n =>
          let w' := with_pending (statsPending w) n (donePending w) w in
          match o with
          | Rejected => Some w'
          | Resolved data =>
              let '(w'', returned) := onInfoData data w' in
              if returned
              then Some (with_pending (statsPending w'') (infoPending w'')
                           (S (donePending w'')) w'')
              else Some w''
          end
      end
  | InfoDone =>
      match donePending w with
      | O => None
      | S n =>
          Some (setIsLoading false
                  (with_pending (statsPending w) (infoPending w) n w))
      end
  end.

Fixpoint run (w : World) (evs : list event) : option World :=
  match evs with
  | [] => Some w
  | e :: evs' =>
      match step w e with
      | Some w' => run w' evs'
      | None => None
      end
  end.

(** The component right after it is mounted at time [t0]: the initial
    values of the hooks, then the two effects in order, [getData] and the
    interval effect. *)
Definition initial : Hooks :=
  {| stats := new_iList; serverState := new_Map; isLoading := true;
     isPaused := false; refreshIntervalSec := VNum 10 |}.

Definition mount (t0 : Z) : World :=
  let w0 := {| view := initial; mounted := true; clock := t0; interval := None;
               nesting := 0;
               statsPending := 0; infoPending := 0; donePending := 0 |} in
  with_interval (intervalEffect initial t0) (getData w0).

(** The timer agrees with the component.  Mounted: no timer while paused,
    otherwise one timer, set with the current refresh interval and not
    missed.  Unmounted: no timer, and no chain that could still store
    anything. *)
Definition timer_ok (w : World) : Prop :=
  if mounted w
  then match interval w with
       | None => isPaused (view w) = true
       | Some (due, period) =>
           isPaused (view w) = false
           ∧ period = delay_ms (refreshIntervalSec (view w))
           ∧ clock w ≤ due
       end
  else interval w = None
       ∧ statsPending w = 0%nat ∧ infoPending w = 0%nat ∧ donePending w = 0%nat.

End WithHost.

(** The events at which a statistics response, or a public-info response,
    reaches its callback. *)
Definition stats_answered (e : event) : bool :=
  match e with
  | StatsSettled (Resolved _) => true
  | _ => false
  end.


(** A host of the public build whose collections print as ["[collection]"]
    and whose strings do not denote numbers; used to run the model on
    examples. *)
Definition plain_host : Host :=
  {| collToString := λ _, "[collection]";
     bigToString := λ _, "[number]";
     StringToNumber := λ _, None;
     publicBuild := true |}.

(** A statistics response that suggests a refresh every [n] seconds. *)
Definition stats_response (n : Z) : val :=
  VMap [("result", VMap [("snapshot_timestamp", VNum 1700000000);
                         ("refresh_interval_sec", VNum n);
                         ("stats", VList [])]);
        ("failed", VBool false)].

(** A public-info response carrying [r]. *)
Definition info_response (r : val) : val :=
  VMap [("result", r); ("failed", VBool false)].

(** The events that bring a freshly mounted dashboard to rest: both fetches
    of the first tick answered, the chain of the public-info fetch
    completed, and ten seconds gone, so that the timer is about to fire. *)
Definition first_tick : list event :=
  [StatsSettled (Resolved (stats_response 10));
   InfoSettled (Resolved (info_response (VMap [("player_count", VNum 40)])));
   InfoDone;
   Elapse 10000].

(** The dashboard at rest after [first_tick]. *)
Definition resting : World :=
  {| view := {| stats := VMap [("snapshot_timestamp", VNum 1700000000);
                               ("refresh_interval_sec", VNum 10);
                               ("stats", VList [])];
                serverState := VMap [("player_count", VNum 40)];
                isLoading := false;
                isPaused := false;
                refreshIntervalSec := VNum 10 |};
     mounted := true;
     clock := 10000;
     interval := Some (10000, 10000);
     nesting := 0;
     statsPending := 0; infoPending := 0; donePending := 0 |}.

End LiveScore.

(** ** Sorting with a comparator *)

Module Sorting.

Section Insertion.
Context {A : Type}.
Variable cmp : A → A → comparison.

  (** [a] may stand before [b]: the comparator does not answer "greater". *)
Definition before (a b : A) : bool :=
    match cmp a b with
    | Gt => false
    | _ => true
    end.

Definition precedes (a b : A) : Prop := before a b = true.

Fixpoint insert (x : A) (l : list A) : list A :=
    match l with
    | [] => [x]
    | y :: l' => if before x y then x :: y :: l' else y :: insert x l'
    end.

  (** A stable sort: elements that compare equal keep their order.  Both
      [Array.prototype.sort] and the sorts of Immutable.js and of the table
      library are stable, so that a comparator which is a total preorder
      determines their result. *)
Fixpoint stable_sort (l : list A) : list A :=
    match l with
    | [] => []
    | x :: l' => insert x (stable_sort l')
    end.
End Insertion.

End Sorting.

(** ** game-table.tsx: the player table *)

Module GameTable.

(** The fields of a [Player] row that the table itself reads, and the kill
    count that the default sort of the table names. *)
Record Player := {
  player : string;
  player_id : string;
  kills : Z
}.

Record SelectOption := {
  value : string;
  label : string
}.

(** A value handed to [setFilterValue]: the string of a select, or the names
    of the player filter. *)
Inductive FilterValue : Type :=
| FString (s : string)
| FNames (names : list string).

(** What the table reads of a column definition: its id, the order its
    sorting function puts on rows, its filter function, and the filter
    values for which the filter is dropped. *)
Record ColumnDef := {
  id : string;
  sortingFn : Player → Player → comparison;
  filterFn : Player → FilterValue → bool;
  autoRemove : FilterValue → bool
}.

Record Props := {
  columns : list ColumnDef;
  data : list Player;
  tableId : string
}.

(** The [useState] cells of [DataTable]. *)
Record TableState := {
  playerFilter : list string;
  sorting : list (string * bool);
  columnFilters : list (string * FilterValue)
}.

Definition initialState : TableState :=
  {| playerFilter := []; sorting := [("kills", true)]; columnFilters := [] |}.

(** [playerFilterOptions], lines 59 to 65. *)
Definition playerFilterOptions (data : list Player) (playerFilter : list string)
  : list SelectOption :=
  ((λ p, {| value := player p; label := player p |}) <$> data)
  ++ ((λ name, {| value := name; label := name |}) <$>
      List.filter
        (λ name, negb (existsb (λ p, String.eqb (player p) name) data))
        playerFilter).

(** A new [data] prop arrives: the component renders again with the hooks
    it has. *)
Definition swapData (data' : list Player) (view : Props * TableState)
  : Props * TableState :=
  ({| columns := columns view.1; data := data'; tableId := tableId view.1 |},
   view.2).

(** The options and the selected values handed to [SelectBox]. *)
Definition selectBox (view : Props * TableState)
  : list SelectOption * list string :=
  (playerFilterOptions (data view.1) (playerFilter view.2), playerFilter view.2).

Definition getColumn (cols : list ColumnDef) (cid : string) : option ColumnDef :=
  List.find (λ c, String.eqb (id c) cid) cols.

(** [column.setFilterValue(v)]: the filter of the column is dropped when
    the column says so, replaced when there is one, added otherwise. *)
Definition setFilterValue (c : ColumnDef) (v : FilterValue)
    (filters : list (string * FilterValue)) : list (string * FilterValue) :=
  if autoRemove c v
  then List.filter (λ f, negb (String.eqb f.1 (id c))) filters
  else if existsb (λ f, String.eqb f.1 (id c)) filters
       then (λ f, if String.eqb f.1 (id c) then (id c, v) else f) <$> filters
       else filters ++ [(id c, v)].

(** [setPlayerFilter(values)], followed by the effect of lines 53 to 55 that
    copies the selection into the filter of the [player] column. *)
Definition setPlayerFilter (p : Props) (values : list string) (st : TableState)
  : TableState :=
  {| playerFilter := values;
     sorting := sorting st;
     columnFilters :=
       match getColumn (columns p) "player" with
       | Some c => setFilterValue c (FNames values) (columnFilters st)
       | None => columnFilters st
       end |}.

(** Modelled from the spec: the filtered row model of the table library
    keeps the rows that pass every active column filter. *)
Definition getFilteredRowModel (cols : list ColumnDef)
    (filters : list (string * FilterValue)) (rows : list Player) : list Player :=
  List.filter
    (λ r, forallb
            (λ f, match getColumn cols f.1 with
                  | Some c => filterFn c r f.2
                  | None => true
                  end)
            filters)
    rows.

(** The comparator built from a sort specification: the first column that
    tells two rows apart decides, reversed when the column is descending. *)
Fixpoint rowCompare (cols : list ColumnDef) (spec : list (string * bool))
    (a b : Player) : comparison :=
  match spec with
  | [] => Eq
  | (cid, desc) :: spec' =>
      match getColumn cols cid with
      | None => rowCompare cols spec' a b
      | Some c =>
          match sortingFn c a b with
          | Eq => rowCompare cols spec' a b
          | o => if desc then CompOpp o else o
          end
      end
  end.

(** Modelled from the spec: the sorted row model of the table library
    orders the filtered rows by the sort specification, rows that compare
    equal staying in input order. *)
Definition getSortedRowModel (cols : list ColumnDef)
    (spec : list (string * bool)) (rows : list Player) : list Player :=
  Sorting.stable_sort (rowCompare cols spec) rows.

(** [table.getRowModel().rows]: the rows as displayed. *)
Definition getRowModel (p : Props) (st : TableState) : list Player :=
  getSortedRowModel (columns p) (sorting st)
    (getFilteredRowModel (columns p) (columnFilters st) (data p)).

(** A call of the [download] function of [useGameDownload]. *)
Record DownloadCall := {
  rows : list Player;
  filename : string
}.

(** The [onClick] handler of the export button, line 180. *)
Definition onExportClick (p : Props) (st : TableState) : DownloadCall :=
  {| rows := data p; filename := "game-table-" +:+ tableId p |}.

(** A column on the kill count, sorted by number and without a filter; and a
    table of three players given in the order 3, 10, 1 of their kills. *)
Definition killsColumn : ColumnDef :=
  {| id := "kills";
     sortingFn := λ a b, Z.compare (kills a) (kills b);
     filterFn := λ _ _, true;
     autoRemove := λ _, false |}.

Definition threePlayers : Props :=
  {| columns := [killsColumn];
     data := [{| player := "Ann"; player_id := "1"; kills := 3 |};
              {| player := "Bob"; player_id := "2"; kills := 10 |};
              {| player := "Cid"; player_id := "3"; kills := 1 |}];
     tableId := "axis" |}.

(** *** The focus effect, lines 101 to 115 *)

(** What the effect reads and writes: the focused id held by the context of
    the game statistics; the row elements of the document by element id,
    each with its class list; the elements scrolled into view, latest first;
    the pending [setTimeout] callbacks, each with its firing time and the
    element whose highlight it removes; the clock, in milliseconds. *)
Record Page := {
  focusedPlayerId : option string;
  elements : gmap string (list string);
  scrolled : list string;
  timeouts : list (Z * string);
  clock : Z
}.

Definition style : list string :=
  ["bg-accent"; "outline-2"; "-outline-offset-2"; "outline-primary"; "outline"].

Definition has_class (c : string) (cls : list string) : bool :=
  existsb (String.eqb c) cls.

(** [classList.add(...tokens)]: a token that is missing is appended. *)
Definition classList_add (tokens cls : list string) : list string :=
  foldl (λ acc t, if has_class t acc then acc else acc ++ [t]) cls tokens.

(** [classList.remove(...tokens)] *)
Definition classList_remove (tokens cls : list string) : list string :=
  List.filter (λ c, negb (has_class c tokens)) cls.

Definition setFocusedPlayerId (v : option string) (p : Page) : Page :=
  {| focusedPlayerId := v; elements := elements p; scrolled := scrolled p;
     timeouts := timeouts p; clock := clock p |}.

(** The effect, run after a render in which [focusedPlayerId] changed.  The
    render that follows its own [setFocusedPlayerId(null)] runs it once more
    with [null], where it returns at once. *)
Definition focusEffect (p : Page) : Page :=
  match focusedPlayerId p with
  | None => p
  | Some pid =>
      let eid := "row-" +:+ pid in
      let p1 :=
        match elements p !! eid with
        | Some cls =>
            {| focusedPlayerId := focusedPlayerId p;
               elements := <[eid := classList_add style cls]> (elements p);
               scrolled := eid :: scrolled p;
               timeouts := timeouts p ++ [(clock p + 2000, eid)];
               clock := clock p |}
        | None => p
        end in
      setFocusedPlayerId None p1
  end.

(** Another component asks for the focus on [pid]. *)
Definition requestFocus (pid : string) (p : Page) : Page :=
  focusEffect (setFocusedPlayerId (Some pid) p).

(** A timeout callback: [element.classList.remove(...style)]. *)
Definition fire (els : gmap string (list string)) (t : Z * string)
  : gmap string (list string) :=
  alter (classList_remove style) t.2 els.

(** [dt] milliseconds pass: the callbacks that are due by then run, in the
    order in which they were set. *)
Definition advance (dt : Z) (p : Page) : Page :=
  let t := clock p + dt in
  {| focusedPlayerId := focusedPlayerId p;
     elements := foldl fire (elements p) (List.filter (λ x, x.1 <=? t) (timeouts p));
     scrolled := scrolled p;
     timeouts := List.filter (λ x, negb (x.1 <=? t)) (timeouts p);
     clock := t |}.

(** A class list without any class of the highlight. *)
Definition plain (cls : list string) : Prop :=
  ∀ c, c ∈ style → c ∉ cls.

(** The classes of the row of player [pid]. *)
Definition row_classes (pid : string) (p : Page) : list string :=
  default [] (elements p !! ("row-" +:+ pid)).

(** A page showing [threePlayers], nothing focused, no callback pending. *)
Definition threeRows : Page :=
  {| focusedPlayerId := None;
     elements := list_to_map ((λ p, ("row-" +:+ player_id p, ["text-sm"; "h-10"]))
                              <$> data threePlayers);
     scrolled := [];
     timeouts := [];
     clock := 0 |}.

End GameTable.

(** ** The [SubList] component *)

Module SubList.

(** A map from names to counts, in iteration order. *)
Definition breakdown : Type := list (string * Z).

(** The two ways the component is given its data: when [dataMapKey] is
    missing or falsy, the [playerScore] prop is itself the map to list; when
    [dataMapKey] is a truthy string, the map is the entry of [playerScore]
    under that key. *)
Inductive source : Type :=
| Whole (playerScore : breakdown)
| Part (playerScore : list (string * breakdown)) (dataMapKey : string)
    (given : truthy (VStr dataMapKey) = true).

Fixpoint assoc {V : Type} (k : string) (m : list (string * V)) : option V :=
  match m with
  | [] => None
  | (k', v) :: m' => if String.eqb k k' then Some v else assoc k m'
  end.

(** [dataMapKey ? playerScore.get(dataMapKey) || new Map() : playerScore] *)
Definition select (src : source) : breakdown :=
  match src with
  | Whole playerScore => playerScore
  | Part playerScore dataMapKey _ => default [] (assoc dataMapKey playerScore)
  end.

(** The comparator Immutable.js uses when it is given none:
    [a > b ? 1 : a < b ? -1 : 0]. *)
Definition defaultComparator {A : Type} (lt : A → A → bool) (a b : A) : comparison :=
  if lt b a then Gt else if lt a b then Lt else Eq.

(** [data.sortBy((v, k) => k)] *)
Definition sortBy_key (data : breakdown) : breakdown :=
  Sorting.stable_sort (λ x y, defaultComparator string_lt x.1 y.1) data.

(** [data.sort()] *)
Definition sort_value (data : breakdown) : breakdown :=
  Sorting.stable_sort (λ x y, defaultComparator Z.ltb x.2 y.2) data.

(** The entries in the order in which the component lists them. *)
Definition listed (src : source) (sortByKey : bool) : breakdown :=
  let data := select src in
  if sortByKey then sortBy_key data else reverse (sort_value data).

(** Ascending keys and descending values, as relations on entries. *)
Definition key_le (x y : string * Z) : Prop := string_le x.1 y.1 = true.
Definition value_ge (x y : string * Z) : Prop := y.2 ≤ x.2.

End SubList.

(** ** game-table.tsx: what the table renders *)

Module TableRender.

Section Teams.
(** [getTeamFromAssociation(player.team)], a function of the statistics
    utilities. *)
Variable teamOf : GameTable.Player → string.

Definition teamOptions : list string := ["axis"; "allies"; "mixed"; "unknown"].

(** Line 122: for each option, the number of rows of that team. *)
Definition teamCounts (data : list GameTable.Player) : list nat :=
  (λ team, length (List.filter (λ p, String.eqb (teamOf p) team) data))
    <$> teamOptions.

End Teams.

(** A row of the table body: a player row with its element id, its class
    list and its number, or the placeholder with its column span. *)
Inductive BodyRow : Type :=
| PlayerRow (elementId : string) (className : list string) (number : nat)
    (original : GameTable.Player)
| Placeholder (colSpan : nat).

(** Lines 230 to 248: one row per row of the row model, numbered from 1, or
    the placeholder when there is none. *)
Definition tableBody (columns : list GameTable.ColumnDef) (rows : list GameTable.Player)
  : list BodyRow :=
  match rows with
  | [] => [Placeholder (length columns + 1)]
  | _ => imap (λ index row,
                 PlayerRow ("row-" +:+ GameTable.player_id row) ["text-sm"; "h-10"]
                   (index + 1) row)
           rows
  end.

(** The elements of a body that have an id, as [getElementById] finds them:
    of two elements with one id, the first. *)
Definition document (body : list BodyRow) : gmap string (list string) :=
  list_to_map
    (omap (λ r, match r with
                | PlayerRow eid cls _ _ => Some (eid, cls)
                | Placeholder _ => None
                end)
       body).

End TableRender.

(** * Properties *)

(** ** Values *)

Lemma strict_eq_eq (a b : val) : strict_eq a b = true → a = b.
Proof.
  destruct a as [| | x | x | x | x | x], b as [| | y | y | y | y | y];
    simpl; try discriminate; try reflexivity.
  all: try (destruct x, y; simpl; congruence).
  all: try (destruct x; discriminate).
  - intros H. apply Z.eqb_eq in H. congruence.
  - intros H. apply String.eqb_eq in H. congruence.
Qed.

Lemma toStr_num (host : Host) (n : Z) :
  Z.abs n < 9007199254740992 → toStr host (VNum n) = pretty n.
Proof.
  intros Hn. unfold toStr.
  destruct (Z.ltb_spec (Z.abs n) 9007199254740992); [reflexivity | lia].
Qed.

Lemma strict_eq_str (s t : string) : strict_eq (VStr s) (VStr t) = String.eqb s t.
Proof. reflexivity. Qed.

Lemma nullish_not_truthy (v : val) : nullish v = true → truthy v = false.
Proof. destruct v; simpl; congruence. Qed.

(** ** The next-map line *)

Section NextMap.
Variable host : Host.

Lemma topVoted_absent (fields : list (string * val)) :
  lookup_key "vote_status" fields = None →
  LiveHeader.topVoted (VMap fields) = Some (VStr "", VNum 0).
Proof.
  intros H. unfold LiveHeader.topVoted. simpl. rewrite H. reflexivity.
Qed.

Lemma totalVotes_absent (fields : list (string * val)) :
  lookup_key "vote_status" fields = None →
  LiveHeader.totalVotes (VMap fields) = Some VUndef.
Proof.
  intros H. unfold LiveHeader.totalVotes. simpl. rewrite H. reflexivity.
Qed.

Lemma nextMapString_snapshot (m : val) (n : val) (more : list val) (t nm : val) :
  LiveHeader.nextMapString host (LiveHeader.snapshot (VList [m; n] :: more) t nm)
  = Some (if strict_eq m nm
          then "Nextmap " +:+ toStr host nm +:+ " with " +:+ toStr host n
               +:+ " out of " +:+ toStr host t +:+ " votes"
          else "Nextmap: " +:+ toStr host nm).
Proof.
  unfold LiveHeader.nextMapString, LiveHeader.snapshot. simpl.
  destruct (strict_eq m nm); reflexivity.
Qed.

End NextMap.

(** C5.  The next-map line is the tally template when the top-voted map is
    the next map and the tally-free template otherwise: for every snapshot
    whose first winning map is [m] with [n] votes out of [t] (numbers below
    [2^53], which print with all their digits) and whose next map is [nm];
    for the two literal inputs of the specification; and, when the vote
    status is entirely absent, the computation still returns a line, built
    from the fallback map [""] with 0 votes. *)
Theorem nextMapString_templates (host : Host) (m nm : string) (n t : Z)
    (more : list val) (fields : list (string * val)) (nextMap : val) :
  Z.abs n < 9007199254740992 →
  Z.abs t < 9007199254740992 →
  lookup_key "vote_status" fields = None →
  LiveHeader.nextMapName (VMap fields) = Some nextMap →
  LiveHeader.nextMapString host
    (LiveHeader.snapshot (VList [VStr m; VNum n] :: more) (VNum t) (VStr nm))
  = Some (if String.eqb m nm
          then "Nextmap " +:+ nm +:+ " with " +:+ pretty n
               +:+ " out of " +:+ pretty t +:+ " votes"
          else "Nextmap: " +:+ nm)
  ∧ LiveHeader.nextMapString host
      (LiveHeader.snapshot [VList [VStr "St. Mere Eglise"; VNum 5]] (VNum 8)
         (VStr "St. Mere Eglise"))
    = Some "Nextmap St. Mere Eglise with 5 out of 8 votes"
  ∧ LiveHeader.nextMapString host
      (LiveHeader.snapshot [VList [VStr "St. Mere Eglise"; VNum 5]] (VNum 8)
         (VStr "Carentan"))
    = Some "Nextmap: Carentan"
  ∧ LiveHeader.nextMapString host (VMap fields)
    = Some (if strict_eq (VStr "") nextMap
            then "Nextmap " +:+ toStr host nextMap +:+ " with 0 out of undefined votes"
            else "Nextmap: " +:+ toStr host nextMap).
Proof.
  intros Hn Ht Hvote Hnext. split; [| split; [| split]].
  - rewrite nextMapString_snapshot, strict_eq_str, !toStr_num by assumption.
    reflexivity.
  - rewrite nextMapString_snapshot. reflexivity.
  - rewrite nextMapString_snapshot. reflexivity.
  - unfold LiveHeader.nextMapString.
    rewrite (topVoted_absent fields Hvote), (totalVotes_absent fields Hvote), Hnext.
    destruct nextMap as [| | b | k | s | l | f]; try reflexivity.
    destruct s; reflexivity.
Qed.

Lemma nextMapString_templates_witness :
  LiveHeader.nextMapString LiveScore.plain_host
    (VMap [("next_map", VMap [("map", VMap [("pretty_name", VStr "Carentan")])])])
  = Some "Nextmap: Carentan".
Proof.
  pose proof (nextMapString_templates LiveScore.plain_host "Foy" "Foy" 3 4 []
                [("next_map", VMap [("map", VMap [("pretty_name", VStr "Carentan")])])]
                (VStr "Carentan") ltac:(simpl; lia) ltac:(simpl; lia) eq_refl eq_refl)
    as (_ & _ & _ & H).
  exact H.
Defined.

(** ** The polling dashboard *)

Section Polling.
Variable host : Host.

Import LiveScore.

Lemma delay_ms_nonneg (v : val) : 0 ≤ delay_ms host v.
Proof. unfold delay_ms. destruct (toNumber host v); lia. Qed.

Lemma spacing_nonneg (level : nat) (period : Z) : 0 ≤ period → 0 ≤ spacing level period.
Proof. intros Hp. unfold spacing. destruct (_ && _); lia. Qed.

(** A value on which [get] can be called for one key can be called for any. *)
Lemma get_key_completes (v : val) (k1 k2 : string) (d1 d2 : val) :
  completes (get_key v k1 d1) = completes (get_key v k2 d2).
Proof. destruct v; reflexivity. Qed.

(** The three ways the statistics callback ends: the response has no
    readable body; the render of the stored snapshot throws and the
    component is unmounted; the snapshot and the interval are stored. *)
Lemma onStatsData_cases (data : val) (w : World) :
  (prop data "result" = None ∧ onStatsData host data w = w)
  ∨ (∃ r, prop data "result" = Some r
          ∧ LiveRender.statsRenders (js_or r new_iList) = false
          ∧ onStatsData host data w = unmount (setStats (js_or r new_iList) w))
  ∨ (∃ r v, prop data "result" = Some r
            ∧ LiveRender.statsRenders (js_or r new_iList) = true
            ∧ get_key (js_or r new_iList) "refresh_interval_sec" (VNum 10) = Some v
            ∧ onStatsData host data w
              = setRefreshIntervalSec host v (setStats (js_or r new_iList) w)).
Proof.
  unfold onStatsData, fromJS, render.
  destruct (prop data "result") as [r |]; [| by left].
  right. destruct (LiveRender.statsRenders (js_or r new_iList)) eqn:Hr.
  - right. pose proof Hr as Hget.
    unfold LiveRender.statsRenders, LiveRender.scores in Hget.
    rewrite (get_key_completes _ _ "refresh_interval_sec" _ (VNum 10)) in Hget.
    destruct (get_key _ "refresh_interval_sec" _) as [v |] eqn:Hv; [| discriminate].
    exists r, v. simpl. rewrite Hv. done.
  - left. exists r. done.
Qed.

Lemma setRefreshIntervalSec_frame (v : val) (w : World) :
  view (setRefreshIntervalSec host v w)
  = {| stats := stats (view w); serverState := serverState (view w);
       isLoading := isLoading (view w); isPaused := isPaused (view w);
       refreshIntervalSec := v |}
  ∧ mounted (setRefreshIntervalSec host v w) = mounted w
  ∧ clock (setRefreshIntervalSec host v w) = clock w
  ∧ (statsPending (setRefreshIntervalSec host v w),
     infoPending (setRefreshIntervalSec host v w),
     donePending (setRefreshIntervalSec host v w))
    = (statsPending w, infoPending w, donePending w).
Proof. unfold setRefreshIntervalSec. destruct (strict_eq _ v); done. Qed.

Lemma setPaused_frame (b : bool) (w : World) :
  view (setPaused host b w)
  = {| stats := stats (view w); serverState := serverState (view w);
       isLoading := isLoading (view w); isPaused := b;
       refreshIntervalSec := refreshIntervalSec (view w) |}
  ∧ mounted (setPaused host b w) = mounted w
  ∧ clock (setPaused host b w) = clock w
  ∧ (statsPending (setPaused host b w), infoPending (setPaused host b w),
     donePending (setPaused host b w))
    = (statsPending w, infoPending w, donePending w).
Proof. unfold setPaused. destruct (Bool.eqb _ b); done. Qed.

(** *** The timer invariant *)

Lemma timer_ok_mounted (w w' : World) :
  mounted w = true → mounted w' = true →
  interval w' = interval w →
  isPaused (view w') = isPaused (view w) →
  refreshIntervalSec (view w') = refreshIntervalSec (view w) →
  clock w' = clock w →
  timer_ok host w → timer_ok host w'.
Proof.
  unfold timer_ok. intros -> -> -> -> -> ->. done.
Qed.

Lemma unmount_timer_ok (w : World) : timer_ok host (unmount w).
Proof. unfold timer_ok. simpl. done. Qed.

Lemma intervalEffect_ok (w : World) :
  mounted w = true →
  timer_ok host (with_interval (intervalEffect host (view w) (clock w)) w).
Proof.
  intros Hm. unfold timer_ok, intervalEffect. simpl. rewrite Hm.
  destruct (isPaused (view w)) eqn:Hp; simpl; [done |].
  pose proof (delay_ms_nonneg (refreshIntervalSec (view w))).
  split; [done | split; [done | lia]].
Qed.

Lemma setPaused_timer_ok (b : bool) (w : World) :
  mounted w = true → timer_ok host w → timer_ok host (setPaused host b w).
Proof.
  intros Hm Hok. unfold setPaused.
  destruct (Bool.eqb (isPaused (view w)) b) eqn:Hb.
  - apply Bool.eqb_prop in Hb. subst b. destruct w as [[] ? ? ? ? ? ? ?]. exact Hok.
  - match goal with
    | |- timer_ok _ (with_interval (intervalEffect _ ?h _) ?w') =>
        apply (intervalEffect_ok w'); exact Hm
    end.
Qed.

Lemma setRefreshIntervalSec_timer_ok (v : val) (w : World) :
  mounted w = true → timer_ok host w → timer_ok host (setRefreshIntervalSec host v w).
Proof.
  intros Hm Hok. unfold setRefreshIntervalSec.
  destruct (strict_eq (refreshIntervalSec (view w)) v) eqn:Hv.
  - apply strict_eq_eq in Hv. subst v. destruct w as [[] ? ? ? ? ? ? ?]. exact Hok.
  - match goal with
    | |- timer_ok _ (with_interval (intervalEffect _ ?h _) ?w') =>
        apply (intervalEffect_ok w'); exact Hm
    end.
Qed.

Lemma onStatsData_timer_ok (data : val) (w : World) :
  mounted w = true → timer_ok host w → timer_ok host (onStatsData host data w).
Proof.
  intros Hm Hok.
  destruct (onStatsData_cases data w)
    as [[_ ->] | [(r & _ & _ & ->) | (r & v & _ & _ & _ & ->)]].
  - exact Hok.
  - apply unmount_timer_ok.
  - apply setRefreshIntervalSec_timer_ok; [exact Hm |].
    by apply (timer_ok_mounted w).
Qed.

(** Every event keeps the timer in agreement with the component. *)
Lemma step_timer_ok (w w' : World) (e : event) :
  timer_ok host w → step host w e = Some w' → timer_ok host w'.
Proof.
  intros Hok Hstep.
  destruct (mounted w) eqn:Hm.
  - destruct e as [dt | | | o | o |]; simpl in Hstep.
    + destruct (0 <=? dt) eqn:Hdt; simpl in Hstep; [| discriminate].
      unfold timer_ok in *. rewrite Hm in Hok.
      destruct (interval w) as [[due period] |] eqn:Hi.
      * destruct (clock w + dt <=? due) eqn:Hdue; [| discriminate].
        injection Hstep as <-. simpl. rewrite Hm, Hi.
        apply Z.leb_le in Hdue. destruct Hok as (? & ? & ?).
        split; [done | split; [done | lia]].
      * injection Hstep as <-. simpl. rewrite Hm, Hi. exact Hok.
    + unfold timer_ok in Hok. rewrite Hm in Hok.
      destruct (interval w) as [[due period] |]; [| discriminate].
      destruct (clock w =? due); [| discriminate].
      injection Hstep as <-. destruct Hok as (Hp & Hper & Hdue).
      pose proof (delay_ms_nonneg (refreshIntervalSec (view w))) as Hd.
      pose proof (spacing_nonneg (S (nesting w)) period ltac:(lia)).
      unfold timer_ok. simpl. rewrite Hm. split; [done | split; [done | lia]].
    + rewrite Hm in Hstep. injection Hstep as <-.
      apply setPaused_timer_ok; [exact Hm | exact Hok].
    + destruct (statsPending w) as [| n]; [discriminate |].
      assert (Hok' : timer_ok host (with_pending n (infoPending w) (donePending w) w))
        by (by apply (timer_ok_mounted w)).
      destruct o as [| data]; injection Hstep as <-.
      * exact Hok'.
      * apply onStatsData_timer_ok; [exact Hm | exact Hok'].
    + destruct (infoPending w) as [| n]; [discriminate |].
      assert (Hok' : timer_ok host (with_pending (statsPending w) n (donePending w) w))
        by (by apply (timer_ok_mounted w)).
      destruct o as [| data].
      * injection Hstep as <-. exact Hok'.
      * unfold onInfoData, render in Hstep. destruct (prop data "result").
        -- destruct (LiveRender.serverStateRenders _ _ _); injection Hstep as <-;
             [by apply (timer_ok_mounted w) | apply unmount_timer_ok].
        -- injection Hstep as <-. exact Hok'.
    + destruct (donePending w) as [| n]; [discriminate |].
      injection Hstep as <-. by apply (timer_ok_mounted w).
  - unfold timer_ok in Hok. rewrite Hm in Hok. destruct Hok as (Hi & Hs & Hin & Hd).
    destruct e as [dt | | | o | o |]; simpl in Hstep;
      rewrite ?Hi, ?Hs, ?Hin, ?Hd, ?Hm in Hstep; try discriminate.
    destruct (0 <=? dt); simpl in Hstep; [| discriminate].
    injection Hstep as <-. unfold timer_ok. simpl. rewrite Hm. done.
Qed.

Lemma run_timer_ok (evs : list event) (w w' : World) :
  timer_ok host w → run host w evs = Some w' → timer_ok host w'.
Proof.
  revert w. induction evs as [| e evs IH]; intros w Hok Hrun; simpl in Hrun.
  - congruence.
  - destruct (step host w e) as [w1 |] eqn:Hstep; [| discriminate].
    eapply IH; [| exact Hrun]. eapply step_timer_ok; eauto.
Qed.

Lemma mount_timer_ok (t0 : Z) : timer_ok host (mount host t0).
Proof.
  unfold timer_ok, mount. simpl.
  pose proof (delay_ms_nonneg (VNum 10)). split; [done | split; [done | lia]].
Qed.

Lemma run_cons_inv (w w' : World) (e : event) (evs : list event) :
  run host w (e :: evs) = Some w' →
  ∃ w1, step host w e = Some w1 ∧ run host w1 evs = Some w'.
Proof. simpl. destruct (step host w e) as [w1 |]; [eauto | discriminate]. Qed.

Lemma run_nil_inv (w w' : World) : run host w [] = Some w' → w' = w.
Proof. simpl. congruence. Qed.

(** *** What each event does to the hooks *)

Lemma step_tick_view (w w' : World) :
  step host w Tick = Some w' →
  view w' = view (setIsLoading true w)
  ∧ statsPending w' = S (statsPending w)
  ∧ infoPending w' = S (infoPending w)
  ∧ donePending w' = donePending w.
Proof.
  simpl. destruct (interval w) as [[due period] |]; [| discriminate].
  destruct (clock w =? due); [| discriminate].
  intros [= <-]. done.
Qed.

Lemma step_stats_rejected (w w' : World) :
  step host w (StatsSettled Rejected) = Some w' →
  view w' = view w ∧ interval w' = interval w ∧ donePending w' = donePending w.
Proof.
  simpl. destruct (statsPending w); [discriminate |]. intros [= <-]. done.
Qed.

Lemma step_info_rejected (w w' : World) :
  step host w (InfoSettled Rejected) = Some w' →
  view w' = view w ∧ interval w' = interval w ∧ donePending w' = donePending w.
Proof.
  simpl. destruct (infoPending w); [discriminate |]. intros [= <-]. done.
Qed.

(** A public-info response with a readable result: the result is stored;
    if the render of it completes, the last step of the chain is queued;
    if it throws, the component is unmounted and no step is queued. *)
Lemma step_info_resolved (w w' : World) (data r : val) :
  prop data "result" = Some r →
  step host w (InfoSettled (Resolved data)) = Some w' →
  view w' = view (setServerState (fromJS r) w)
  ∧ (if LiveRender.serverStateRenders host (clock w) (fromJS r)
     then donePending w' = S (donePending w)
          ∧ mounted w' = mounted w ∧ interval w' = interval w
     else donePending w' = 0%nat ∧ mounted w' = false ∧ interval w' = None).
Proof.
  intros Hr. simpl. destruct (infoPending w); [discriminate |].
  unfold onInfoData, render. rewrite Hr. simpl.
  destruct (LiveRender.serverStateRenders _ _ _); intros [= <-]; done.
Qed.

Lemma step_info_unreadable (w w' : World) (data : val) :
  prop data "result" = None →
  step host w (InfoSettled (Resolved data)) = Some w' →
  view w' = view w ∧ interval w' = interval w ∧ donePending w' = donePending w.
Proof.
  intros Hr. simpl. destruct (infoPending w); [discriminate |].
  unfold onInfoData. rewrite Hr. intros [= <-]. done.
Qed.

Lemma step_info_done (w w' : World) :
  step host w InfoDone = Some w' →
  view w' = view (setIsLoading false w) ∧ interval w' = interval w
  ∧ S (donePending w') = donePending w.
Proof.
  simpl. destruct (donePending w); [discriminate |]. intros [= <-]. done.
Qed.

Lemma step_stats_resolved (w w' : World) (data : val) :
  step host w (StatsSettled (Resolved data)) = Some w' →
  ∃ n, statsPending w = S n
       ∧ w' = onStatsData host data
                (with_pending n (infoPending w) (donePending w) w).
Proof.
  simpl. destruct (statsPending w) as [| n]; [discriminate |].
  intros [= <-]. eauto.
Qed.

Lemma onStatsData_keeps (data : val) (w : World) :
  serverState (view (onStatsData host data w)) = serverState (view w)
  ∧ isLoading (view (onStatsData host data w)) = isLoading (view w)
  ∧ isPaused (view (onStatsData host data w)) = isPaused (view w)
  ∧ clock (onStatsData host data w) = clock w
  ∧ (donePending (onStatsData host data w) ≤ donePending w)%nat.
Proof.
  destruct (onStatsData_cases data w)
    as [[_ ->] | [(r & _ & _ & ->) | (r & v & _ & _ & _ & ->)]].
  - done.
  - simpl. repeat split; lia.
  - destruct (setRefreshIntervalSec_frame v (setStats (js_or r new_iList) w))
      as (-> & _ & -> & [= _ _ ->]). done.
Qed.

Lemma step_stats_resolved_keeps (w w' : World) (data : val) :
  step host w (StatsSettled (Resolved data)) = Some w' →
  serverState (view w') = serverState (view w)
  ∧ isLoading (view w') = isLoading (view w)
  ∧ (donePending w' ≤ donePending w)%nat.
Proof.
  intros Hstep. apply step_stats_resolved in Hstep as (n & Hn & ->).
  destruct (onStatsData_keeps data
              (with_pending n (infoPending w) (donePending w) w))
    as (-> & -> & _ & _ & Hd).
  done.
Qed.

Lemma step_toggle (w w' : World) :
  step host w TogglePause = Some w' →
  mounted w = true ∧ w' = setPaused host (negb (isPaused (view w))) w.
Proof. simpl. destruct (mounted w); [| discriminate]. intros [= <-]. done. Qed.

Lemma step_elapse (w w' : World) (dt : Z) :
  step host w (Elapse dt) = Some w' → w' = with_clock (clock w + dt) w.
Proof. simpl. destruct (_ && _); [| discriminate]. by intros [= <-]. Qed.

(** Only a statistics response changes the statistics snapshot and the
    refresh interval. *)
Lemma step_keeps_stats (w w' : World) (e : event) :
  stats_answered e = false →
  step host w e = Some w' →
  stats (view w') = stats (view w)
  ∧ refreshIntervalSec (view w') = refreshIntervalSec (view w).
Proof.
  intros He Hstep. destruct e as [dt | | | o | o |].
  - apply step_elapse in Hstep as ->. done.
  - apply step_tick_view in Hstep as (-> & _). done.
  - apply step_toggle in Hstep as (_ & ->).
    destruct (setPaused_frame (negb (isPaused (view w))) w) as (-> & _). done.
  - destruct o as [| data]; [| discriminate].
    apply step_stats_rejected in Hstep as (-> & _). done.
  - destruct o as [| data].
    + apply step_info_rejected in Hstep as (-> & _). done.
    + destruct (prop data "result") as [r |] eqn:Hr.
      * destruct (step_info_resolved w w' data r Hr Hstep) as (-> & _). done.
      * destruct (step_info_unreadable w w' data Hr Hstep) as (-> & _). done.
  - apply step_info_done in Hstep as (-> & _). done.
Qed.


Lemma run_keeps_stats (evs : list event) (w w' : World) :
  Forall (λ e, stats_answered e = false) evs →
  run host w evs = Some w' →
  stats (view w') = stats (view w)
  ∧ refreshIntervalSec (view w') = refreshIntervalSec (view w).
Proof.
  revert w. induction evs as [| e evs IH]; intros w Hevs Hrun.
  - apply run_nil_inv in Hrun as ->. done.
  - apply run_cons_inv in Hrun as (w1 & Hstep & Hrun).
    apply Forall_cons in Hevs as [He Hevs].
    destruct (IH w1 Hevs Hrun) as [-> ->]. eapply step_keeps_stats; eauto.
Qed.


Lemma not_stats_event (e : event) :
  (∀ o, e ≠ StatsSettled o) → stats_answered e = false.
Proof. destruct e as [| | | [|] | |]; try done. intros H. by destruct (H (Resolved data)). Qed.

End Polling.

(** *** The loading flag *)

(** The claim C2 as stated fails: after mounting, the public-info fetch
    succeeds and its chain completes while the statistics fetch of the same
    tick is still outstanding; [isLoading] is already false. *)
Lemma loading_cleared_while_stats_outstanding :
  ∃ w, LiveScore.run LiveScore.plain_host (LiveScore.mount LiveScore.plain_host 0)
         [LiveScore.InfoSettled (LiveScore.Resolved (LiveScore.info_response (VMap [])));
          LiveScore.InfoDone] = Some w
       ∧ LiveScore.isLoading (LiveScore.view w) = false
       ∧ LiveScore.statsPending w = 1%nat.
Proof. eexists. split; [reflexivity |]. split; reflexivity. Qed.

(** C2, amended.  [isLoading] is true once the component is mounted; a tick
    sets it to true as it issues the two fetches; the last step of a
    public-info chain sets it to false.  Such a step is queued only by a
    public-info response whose result was read, stored and rendered: a
    response whose result makes the render throw is stored, unmounts the
    component and queues nothing; a failed fetch, or a response without a
    readable body, stores nothing and queues nothing.  No other event
    changes the flag or queues such a step, so the flag never waits for the
    statistics fetch. *)
Theorem loading_flag_follows_public_info (host : Host) (t0 : Z)
    (w w' : LiveScore.World) (e : LiveScore.event) :
  LiveScore.step host w e = Some w' →
  LiveScore.isLoading (LiveScore.view (LiveScore.mount host t0)) = true
  ∧ match e with
    | LiveScore.Tick =>
        LiveScore.isLoading (LiveScore.view w') = true
        ∧ LiveScore.statsPending w' = S (LiveScore.statsPending w)
        ∧ LiveScore.infoPending w' = S (LiveScore.infoPending w)
        ∧ LiveScore.donePending w' = LiveScore.donePending w
    | LiveScore.InfoDone =>
        LiveScore.isLoading (LiveScore.view w') = false
        ∧ S (LiveScore.donePending w') = LiveScore.donePending w
    | LiveScore.InfoSettled o =>
        LiveScore.isLoading (LiveScore.view w') = LiveScore.isLoading (LiveScore.view w)
        ∧ match o with
          | LiveScore.Resolved data =>
              match prop data "result" with
              | Some r =>
                  LiveScore.serverState (LiveScore.view w') = fromJS r
                  ∧ (if LiveRender.serverStateRenders host (LiveScore.clock w) (fromJS r)
                     then LiveScore.donePending w' = S (LiveScore.donePending w)
                     else LiveScore.donePending w' = 0%nat
                          ∧ LiveScore.mounted w' = false)
              | None =>
                  LiveScore.serverState (LiveScore.view w')
                  = LiveScore.serverState (LiveScore.view w)
                  ∧ LiveScore.donePending w' = LiveScore.donePending w
              end
          | LiveScore.Rejected =>
              LiveScore.serverState (LiveScore.view w')
              = LiveScore.serverState (LiveScore.view w)
              ∧ LiveScore.donePending w' = LiveScore.donePending w
          end
    | _ =>
        LiveScore.isLoading (LiveScore.view w') = LiveScore.isLoading (LiveScore.view w)
        ∧ (LiveScore.donePending w' ≤ LiveScore.donePending w)%nat
    end.
Proof.
  intros Hstep. split; [reflexivity |].
  destruct e as [dt | | | o | o |].
  - apply step_elapse in Hstep as ->. done.
  - apply step_tick_view in Hstep as (-> & -> & -> & ->). done.
  - apply step_toggle in Hstep as (_ & ->).
    destruct (setPaused_frame host (negb (LiveScore.isPaused (LiveScore.view w))) w)
      as (-> & _ & _ & [= _ _ ->]). done.
  - destruct o as [| data].
    + apply step_stats_rejected in Hstep as (-> & _ & ->). done.
    + apply step_stats_resolved_keeps in Hstep as (_ & -> & Hd). done.
  - destruct o as [| data].
    + apply step_info_rejected in Hstep as (-> & _ & ->). done.
    + destruct (prop data "result") as [r |] eqn:Hr.
      * destruct (step_info_resolved host w w' data r Hr Hstep) as (-> & Hdone).
        split; [done |]. split; [done |].
        destruct (LiveRender.serverStateRenders _ _ _); tauto.
      * destruct (step_info_unreadable host w w' data Hr Hstep) as (-> & _ & ->). done.
  - apply step_info_done in Hstep as (-> & _ & Hd). done.
Qed.

Lemma loading_flag_follows_public_info_witness :
  ∃ w', LiveScore.step LiveScore.plain_host
          (LiveScore.mount LiveScore.plain_host 0)
          (LiveScore.InfoSettled (LiveScore.Resolved (LiveScore.info_response (VMap []))))
        = Some w'
        ∧ LiveScore.isLoading (LiveScore.view w') = true
        ∧ LiveScore.donePending w' = 1%nat.
Proof.
  eexists. split; [reflexivity |].
  pose proof (proj2 (loading_flag_follows_public_info LiveScore.plain_host 0
                       (LiveScore.mount LiveScore.plain_host 0) _
                       (LiveScore.InfoSettled
                          (LiveScore.Resolved (LiveScore.info_response (VMap []))))
                       eq_refl)) as (Hl & _ & Hd).
  split; [exact Hl | exact Hd].
Defined.

(** *** Failed fetches *)




Lemma first_tick_rests :
  LiveScore.run LiveScore.plain_host (LiveScore.mount LiveScore.plain_host 0)
    LiveScore.first_tick = Some LiveScore.resting.
Proof. vm_compute. reflexivity. Qed.

(** *** The refresh interval *)

Lemma round53_small (x : Z) : Z.abs x < 2 ^ 53 → LiveScore.round53 x = x.
Proof.
  intros Hx. unfold LiveScore.round53.
  destruct (Z.ltb_spec (Z.abs x) (2 ^ 53)); [reflexivity | lia].
Qed.

Lemma toInt32_small (x : Z) : 0 ≤ x < 2 ^ 31 → LiveScore.toInt32 x = x.
Proof.
  intros Hx. unfold LiveScore.toInt32.
  rewrite Z.mod_small by lia.
  destruct (Z.ltb_spec x (2 ^ 31)); [reflexivity | lia].
Qed.

(** Below [2^31] milliseconds the timeout is the interval in milliseconds. *)
Lemma delay_ms_seconds (host : Host) (s : Z) :
  0 ≤ s * 1000 < 2 ^ 31 → LiveScore.delay_ms host (VNum s) = s * 1000.
Proof.
  intros Hs. unfold LiveScore.delay_ms. simpl.
  rewrite round53_small by lia. rewrite toInt32_small by lia. lia.
Qed.

Lemma onStatsData_map (host : Host) (data : val) (m : list (string * val))
    (w : LiveScore.World) :
  prop data "result" = Some (VMap m) →
  LiveScore.onStatsData host data w
  = LiveScore.setRefreshIntervalSec host
      (default (VNum 10) (lookup_key "refresh_interval_sec" m))
      (LiveScore.setStats (VMap m) w).
Proof. intros Hr. unfold LiveScore.onStatsData. rewrite Hr. reflexivity. Qed.

Lemma setRefreshIntervalSec_view (host : Host) (v : val) (w : LiveScore.World) :
  LiveScore.view (LiveScore.setRefreshIntervalSec host v w)
  = {| LiveScore.stats := LiveScore.stats (LiveScore.view w);
       LiveScore.serverState := LiveScore.serverState (LiveScore.view w);
       LiveScore.isLoading := LiveScore.isLoading (LiveScore.view w);
       LiveScore.isPaused := LiveScore.isPaused (LiveScore.view w);
       LiveScore.refreshIntervalSec := v |}.
Proof. apply setRefreshIntervalSec_frame. Qed.

(** When the stored interval changes, the timer is replaced: none while
    paused, otherwise one that fires a full new interval from now. *)
Lemma setRefreshIntervalSec_interval (host : Host) (v : val) (w : LiveScore.World) :
  strict_eq (LiveScore.refreshIntervalSec (LiveScore.view w)) v = false →
  LiveScore.interval (LiveScore.setRefreshIntervalSec host v w)
  = if LiveScore.isPaused (LiveScore.view w) then None
    else Some (LiveScore.clock w + LiveScore.delay_ms host v, LiveScore.delay_ms host v).
Proof.
  intros Hne. unfold LiveScore.setRefreshIntervalSec. rewrite Hne. reflexivity.
Qed.

(** C6.  A statistics response whose result carries a refresh interval [v]
    makes [v] the refresh interval.  While the dashboard is paused no timer
    is installed; otherwise, if [v] is not the interval already in use, the
    timer is replaced by one set with the timeout of [v], which first fires
    that long after the response.  For a number of seconds below [2^31]
    milliseconds that timeout is the interval itself, in milliseconds.
    Until the next statistics response, whatever happens, the interval
    stays [v] and every installed timer is set with the timeout of [v].
    With 10 seconds in use and a response carrying 30 that arrives 2 seconds
    after mounting, the timer is due 30 seconds after the response: it does
    not fire 10 seconds after mounting, and it fires 30 seconds after the
    response. *)
Theorem refresh_interval_adopted (host : Host) (w : LiveScore.World) (data : val)
    (m : list (string * val)) (v : val) (n : nat) :
  LiveScore.timer_ok host w →
  LiveScore.statsPending w = S n →
  prop data "result" = Some (VMap m) →
  lookup_key "refresh_interval_sec" m = Some v →
  ∃ w', LiveScore.step host w (LiveScore.StatsSettled (LiveScore.Resolved data)) = Some w'
    ∧ LiveScore.refreshIntervalSec (LiveScore.view w') = v
    ∧ (LiveScore.isPaused (LiveScore.view w) = true → LiveScore.interval w' = None)
    ∧ (LiveScore.isPaused (LiveScore.view w) = false →
       strict_eq (LiveScore.refreshIntervalSec (LiveScore.view w)) v = false →
       LiveScore.interval w'
       = Some (LiveScore.clock w + LiveScore.delay_ms host v, LiveScore.delay_ms host v))
    ∧ (∀ s, v = VNum s → 0 ≤ s * 1000 < 2 ^ 31 → LiveScore.delay_ms host v = s * 1000)
    ∧ (∀ evs w2,
         Forall (λ e, ∀ o, e ≠ LiveScore.StatsSettled o) evs →
         LiveScore.run host w' evs = Some w2 →
         LiveScore.refreshIntervalSec (LiveScore.view w2) = v
         ∧ ∀ due period, LiveScore.interval w2 = Some (due, period) →
                         period = LiveScore.delay_ms host v)
    ∧ ∃ w1, LiveScore.run host (LiveScore.mount host 0)
              [LiveScore.Elapse 2000;
               LiveScore.StatsSettled (LiveScore.Resolved (LiveScore.stats_response 30))]
            = Some w1
            ∧ LiveScore.interval w1 = Some (32000, 30000)
            ∧ LiveScore.run host w1 [LiveScore.Elapse 8000; LiveScore.Tick] = None
            ∧ is_Some (LiveScore.run host w1 [LiveScore.Elapse 30000; LiveScore.Tick]).
Proof.
  intros Hok Hn Hr Hv.
  assert (Hm : LiveScore.mounted w = true).
  { unfold LiveScore.timer_ok in Hok. destruct (LiveScore.mounted w); [done |].
    destruct Hok as (_ & Hs & _). congruence. }
  set (w0 := LiveScore.with_pending n (LiveScore.infoPending w) (LiveScore.donePending w) w).
  assert (Hstep : LiveScore.step host w (LiveScore.StatsSettled (LiveScore.Resolved data))
                  = Some (LiveScore.onStatsData host data w0)).
  { simpl. rewrite Hn. reflexivity. }
  assert (Hok' : LiveScore.timer_ok host (LiveScore.onStatsData host data w0))
    by (eapply step_timer_ok; eauto).
  exists (LiveScore.onStatsData host data w0).
  rewrite (onStatsData_map host data m w0 Hr), Hv in *. simpl default in *.
  split; [exact Hstep |].
  split; [by rewrite setRefreshIntervalSec_view |].
  split; [| split; [| split; [| split]]].
  - intros Hp. unfold LiveScore.timer_ok in Hok'.
    destruct (setRefreshIntervalSec_frame host v (LiveScore.setStats (VMap m) w0))
      as (Hview & Hmount & _).
    rewrite Hmount, Hview in Hok'. simpl in Hok'. rewrite Hm in Hok'.
    destruct (LiveScore.interval _) as [[due period] |]; [| done].
    destruct Hok' as (Hq & _). congruence.
  - intros Hp Hne. rewrite setRefreshIntervalSec_interval by exact Hne.
    simpl. rewrite Hp. reflexivity.
  - intros s -> Hs. by apply delay_ms_seconds.
  - intros evs w2 Hevs Hrun.
    assert (Hevs' : Forall (λ e, LiveScore.stats_answered e = false) evs).
    { eapply Forall_impl; [exact Hevs |]. intros e. apply not_stats_event. }
    destruct (run_keeps_stats host evs _ _ Hevs' Hrun) as [_ Hkeep].
    rewrite setRefreshIntervalSec_view in Hkeep. simpl in Hkeep.
    split; [exact Hkeep |].
    intros due period Hi.
    pose proof (run_timer_ok host evs _ _ Hok' Hrun) as Hok2.
    unfold LiveScore.timer_ok in Hok2. rewrite Hi, Hkeep in Hok2.
    destruct (LiveScore.mounted w2); [tauto |]. destruct Hok2 as [[=] _].
  - eexists. split; [reflexivity |]. split; [reflexivity |].
    split; [reflexivity |]. eexists. reflexivity.
Qed.

Lemma refresh_interval_adopted_witness :
  ∃ w', LiveScore.step LiveScore.plain_host (LiveScore.mount LiveScore.plain_host 0)
          (LiveScore.StatsSettled (LiveScore.Resolved (LiveScore.stats_response 30)))
        = Some w'
        ∧ LiveScore.refreshIntervalSec (LiveScore.view w') = VNum 30.
Proof.
  destruct (refresh_interval_adopted LiveScore.plain_host
              (LiveScore.mount LiveScore.plain_host 0)
              (LiveScore.stats_response 30)
              [("snapshot_timestamp", VNum 1700000000);
               ("refresh_interval_sec", VNum 30); ("stats", VList [])]
              (VNum 30) 0
              (mount_timer_ok LiveScore.plain_host 0) eq_refl eq_refl eq_refl)
    as (w' & Hstep & Hv & _).
  exists w'. split; [exact Hstep | exact Hv].
Defined.

(** C10.  A statistics response whose result is absent or otherwise falsy,
    is a list, or is a map without the key [refresh_interval_sec], sets the
    refresh interval to 10 seconds, whatever it was.  If the dashboard is not
    paused and the interval was not 10 already, the timer is replaced by one
    that fires 10 seconds after the response.  When the result is absent or
    falsy the statistics snapshot becomes the empty list; otherwise it
    becomes the result. *)
Theorem refresh_interval_defaults_to_10 (host : Host) (w : LiveScore.World)
    (data r : val) (n : nat) :
  LiveScore.statsPending w = S n →
  prop data "result" = Some r →
  truthy r = false
  ∨ (∃ l, r = VList l)
  ∨ (∃ m, r = VMap m ∧ lookup_key "refresh_interval_sec" m = None) →
  ∃ w', LiveScore.step host w (LiveScore.StatsSettled (LiveScore.Resolved data)) = Some w'
    ∧ LiveScore.refreshIntervalSec (LiveScore.view w') = VNum 10
    ∧ LiveScore.stats (LiveScore.view w') = (if truthy r then r else VList [])
    ∧ (LiveScore.isPaused (LiveScore.view w) = false →
       LiveScore.refreshIntervalSec (LiveScore.view w) ≠ VNum 10 →
       LiveScore.interval w' = Some (LiveScore.clock w + 10000, 10000)).
Proof.
  intros Hn Hr Hshape.
  set (w0 := LiveScore.with_pending n (LiveScore.infoPending w) (LiveScore.donePending w) w).
  exists (LiveScore.onStatsData host data w0).
  split; [simpl; rewrite Hn; reflexivity |].
  assert (Hget : get_key (fromJS (js_or r new_iList)) "refresh_interval_sec" (VNum 10)
                 = Some (VNum 10)).
  { unfold js_or, fromJS, new_iList.
    destruct Hshape as [Hf | [[l ->] | (m & -> & Hm)]]; simpl.
    - rewrite Hf. reflexivity.
    - reflexivity.
    - rewrite Hm. reflexivity. }
  assert (Hrender : LiveRender.statsRenders (fromJS (js_or r new_iList)) = true).
  { unfold LiveRender.statsRenders, LiveRender.scores.
    rewrite (get_key_completes _ _ "refresh_interval_sec" _ (VNum 10)), Hget.
    reflexivity. }
  unfold LiveScore.onStatsData. rewrite Hr, Hrender. cbn [LiveScore.render]. rewrite Hget.
  split; [by rewrite setRefreshIntervalSec_view |].
  split; [by rewrite setRefreshIntervalSec_view |].
  intros Hp Hne. rewrite setRefreshIntervalSec_interval.
  - simpl. rewrite Hp. reflexivity.
  - simpl. destruct (strict_eq _ _) eqn:E; [| reflexivity].
    apply strict_eq_eq in E. contradiction.
Qed.

Lemma refresh_interval_defaults_to_10_witness :
  ∃ w', LiveScore.step LiveScore.plain_host
          (LiveScore.setRefreshIntervalSec LiveScore.plain_host (VNum 30)
             (LiveScore.mount LiveScore.plain_host 0))
          (LiveScore.StatsSettled (LiveScore.Resolved (VMap [("failed", VBool false)])))
        = Some w'
        ∧ LiveScore.refreshIntervalSec (LiveScore.view w') = VNum 10
        ∧ LiveScore.stats (LiveScore.view w') = VList []
        ∧ LiveScore.interval w' = Some (10000, 10000).
Proof.
  destruct (refresh_interval_defaults_to_10 LiveScore.plain_host
              (LiveScore.setRefreshIntervalSec LiveScore.plain_host (VNum 30)
                 (LiveScore.mount LiveScore.plain_host 0))
              (VMap [("failed", VBool false)]) VUndef 0
              eq_refl eq_refl (or_introl eq_refl))
    as (w' & Hstep & Hv & Hs & Hi).
  exists w'. split; [exact Hstep |]. split; [exact Hv |]. split; [exact Hs |].
  apply Hi; [reflexivity | discriminate].
Defined.

(** ** Sorting *)

Section SortingFacts.
Context {A : Type}.
Variable cmp : A → A → comparison.

Hypothesis before_total : ∀ a b, Sorting.before cmp a b = true ∨ Sorting.before cmp b a = true.
Hypothesis before_trans : ∀ a b c,
  Sorting.before cmp a b = true → Sorting.before cmp b c = true →
  Sorting.before cmp a c = true.

Lemma insert_Permutation (x : A) (l : list A) : Sorting.insert cmp x l ≡ₚ x :: l.
Proof.
  induction l as [| y l IH]; simpl; [done |].
  destruct (Sorting.before cmp x y); [done |].
  rewrite IH. apply Permutation_swap.
Qed.

Lemma stable_sort_Permutation (l : list A) : Sorting.stable_sort cmp l ≡ₚ l.
Proof.
  induction l as [| x l IH]; simpl; [done |].
  rewrite insert_Permutation, IH. done.
Qed.

Lemma insert_StronglySorted (x : A) (l : list A) :
  StronglySorted (Sorting.precedes cmp) l → StronglySorted (Sorting.precedes cmp) (Sorting.insert cmp x l).
Proof.
  induction 1 as [| y l Hs IH Hy]; simpl.
  - repeat constructor.
  - destruct (Sorting.before cmp x y) eqn:Hxy.
    + constructor; [by constructor |].
      constructor; [done |].
      eapply Forall_impl; [exact Hy |]. intros z Hz.
      unfold Sorting.precedes in *. by eapply before_trans.
    + constructor; [exact IH |].
      rewrite insert_Permutation. constructor; [| exact Hy].
      destruct (before_total x y) as [H | H]; [congruence | exact H].
Qed.

Lemma stable_sort_StronglySorted (l : list A) :
  StronglySorted (Sorting.precedes cmp) (Sorting.stable_sort cmp l).
Proof.
  induction l as [| x l IH]; simpl; [constructor |].
  by apply insert_StronglySorted.
Qed.

End SortingFacts.

Lemma StronglySorted_mono {A : Type} (R1 R2 : relation A) (l : list A) :
  (∀ x y, R1 x y → R2 x y) → StronglySorted R1 l → StronglySorted R2 l.
Proof.
  intros Himp. induction 1 as [| x l Hs IH Hx]; constructor; [exact IH |].
  eapply Forall_impl; [exact Hx | auto].
Qed.

Lemma StronglySorted_reverse {A : Type} (R : relation A) (l : list A) :
  StronglySorted R l → StronglySorted (flip R) (reverse l).
Proof.
  induction 1 as [| x l Hs IH Hx]; [constructor |].
  rewrite reverse_cons. apply StronglySorted_app_2.
  - intros a b Ha Hb. apply list_elem_of_singleton in Hb as ->.
    rewrite elem_of_reverse in Ha. unfold flip.
    rewrite Forall_forall in Hx. by apply Hx.
  - exact IH.
  - repeat constructor.
Qed.

(** *** The order of strings *)

Lemma compare_units_refl (a : list Z) : compare_units a a = Eq.
Proof. induction a as [| x a IH]; simpl; [done |]. by rewrite Z.compare_refl. Qed.

Lemma compare_units_antisym (a b : list Z) :
  compare_units b a = CompOpp (compare_units a b).
Proof.
  revert b. induction a as [| x a IH]; intros [| y b]; simpl; try reflexivity.
  rewrite (Z.compare_antisym x y). destruct (x ?= y); simpl; auto.
Qed.

Lemma compare_units_eq (a b : list Z) : compare_units a b = Eq → a = b.
Proof.
  revert b. induction a as [| x a IH]; intros [| y b]; simpl; try done.
  destruct (x ?= y) eqn:E; try done.
  intros H. apply Z.compare_eq in E. f_equal; auto.
Qed.

Lemma compare_units_lt_trans (a b c : list Z) :
  compare_units a b = Lt → compare_units b c = Lt → compare_units a c = Lt.
Proof.
  revert b c. induction a as [| x a IH]; intros [| y b] [| z c]; simpl; try done.
  destruct (x ?= y) eqn:E1; try done; destruct (y ?= z) eqn:E2; try done; intros H1 H2.
  - apply Z.compare_eq in E1 as ->. rewrite E2. eauto.
  - apply Z.compare_eq in E1 as ->. by rewrite E2.
  - apply Z.compare_eq in E2 as <-. by rewrite E1.
  - rewrite Z.compare_lt_iff in E1, E2.
    assert (E3 : (x ?= z) = Lt) by (rewrite Z.compare_lt_iff; lia).
    by rewrite E3.
Qed.

Lemma string_compare_antisym (a b : string) :
  string_compare b a = CompOpp (string_compare a b).
Proof.
  unfold string_compare. rewrite (compare_units_antisym (utf16 a) (utf16 b)).
  destruct (compare_units (utf16 a) (utf16 b)); simpl; auto.
  apply String.compare_antisym.
Qed.

Lemma string_compare_eq (a b : string) : string_compare a b = Eq → a = b.
Proof.
  unfold string_compare. destruct (compare_units (utf16 a) (utf16 b)); try done.
  apply String.compare_eq_iff.
Qed.

Lemma string_compare_lt_trans (a b c : string) :
  string_compare a b = Lt → string_compare b c = Lt → string_compare a c = Lt.
Proof.
  unfold string_compare.
  destruct (compare_units (utf16 a) (utf16 b)) eqn:E1; try done;
    destruct (compare_units (utf16 b) (utf16 c)) eqn:E2; try done; intros H1 H2.
  - apply compare_units_eq in E1, E2. rewrite E1, E2, compare_units_refl.
    apply String_as_OT.cmp_lt in H1, H2.
    pose proof (String_as_OT.lt_trans _ _ _ H1 H2) as H3.
    by apply String_as_OT.cmp_lt in H3.
  - apply compare_units_eq in E1. by rewrite E1, E2.
  - apply compare_units_eq in E2. by rewrite <- E2, E1.
  - by rewrite (compare_units_lt_trans _ _ _ E1 E2).
Qed.

Lemma string_le_total (a b : string) : string_le a b = true ∨ string_le b a = true.
Proof.
  unfold string_le. rewrite (string_compare_antisym a b).
  destruct (string_compare a b); simpl; auto.
Qed.

Lemma string_le_trans (a b c : string) :
  string_le a b = true → string_le b c = true → string_le a c = true.
Proof.
  unfold string_le. intros Hab Hbc.
  destruct (string_compare a b) eqn:Eab; [| | discriminate].
  - apply string_compare_eq in Eab as ->. exact Hbc.
  - destruct (string_compare b c) eqn:Ebc; [| | discriminate].
    + apply string_compare_eq in Ebc as <-. by rewrite Eab.
    + by rewrite (string_compare_lt_trans _ _ _ Eab Ebc).
Qed.

Lemma string_le_antisym (a b : string) :
  string_le a b = true → string_le b a = true → a = b.
Proof.
  unfold string_le. rewrite (string_compare_antisym a b).
  destruct (string_compare a b) eqn:E; simpl; try done.
  intros _ _. by apply string_compare_eq.
Qed.

Lemma string_lt_le (a b : string) : negb (string_lt b a) = string_le a b.
Proof.
  unfold string_lt, string_le. rewrite (string_compare_antisym a b).
  destruct (string_compare a b); reflexivity.
Qed.

Lemma before_key (x y : string * Z) :
  Sorting.before (λ x y, SubList.defaultComparator string_lt x.1 y.1) x y
  = string_le x.1 y.1.
Proof.
  unfold Sorting.before, SubList.defaultComparator.
  rewrite <- string_lt_le.
  destruct (string_lt y.1 x.1); [reflexivity |].
  destruct (string_lt x.1 y.1); reflexivity.
Qed.

Lemma before_value (x y : string * Z) :
  Sorting.before (λ x y, SubList.defaultComparator Z.ltb x.2 y.2) x y
  = (x.2 <=? y.2).
Proof.
  unfold Sorting.before, SubList.defaultComparator.
  destruct (Z.ltb_spec y.2 x.2), (Z.ltb_spec x.2 y.2), (Z.leb_spec x.2 y.2);
    try reflexivity; lia.
Qed.

(** ** The grouped list *)

Lemma sortBy_key_sorted (data : SubList.breakdown) :
  StronglySorted SubList.key_le (SubList.sortBy_key data).
Proof.
  unfold SubList.sortBy_key.
  eapply StronglySorted_mono; [| apply stable_sort_StronglySorted].
  - intros x y H. unfold Sorting.precedes in H. rewrite before_key in H. exact H.
  - intros a b. rewrite !before_key. apply string_le_total.
  - intros a b c. rewrite !before_key. apply string_le_trans.
Qed.

Lemma sort_value_sorted (data : SubList.breakdown) :
  StronglySorted (λ x y, x.2 ≤ y.2) (SubList.sort_value data).
Proof.
  unfold SubList.sort_value.
  eapply StronglySorted_mono; [| apply stable_sort_StronglySorted].
  - intros x y H. unfold Sorting.precedes in H. rewrite before_value in H.
    by apply Z.leb_le.
  - intros a b. rewrite !before_value. destruct (Z.leb_spec a.2 b.2); [by left |].
    right. apply Z.leb_le. lia.
  - intros a b c. rewrite !before_value, !Z.leb_le. lia.
Qed.

(** C8.  Whatever mapping the component is given, the entries it lists are
    the entries of that mapping, each as often as there; with [sortByKey]
    they stand in ascending order of key, without it in descending order of
    value, obtained as the reverse of the ascending order of value. *)
Theorem listed_sorted (src : SubList.source) (sortByKey : bool) :
  SubList.listed src sortByKey ≡ₚ SubList.select src
  ∧ (if sortByKey
     then StronglySorted SubList.key_le (SubList.listed src sortByKey)
     else StronglySorted SubList.value_ge (SubList.listed src sortByKey)
          ∧ SubList.listed src sortByKey = reverse (SubList.sort_value (SubList.select src))
          ∧ StronglySorted (λ x y, x.2 ≤ y.2) (SubList.sort_value (SubList.select src))).
Proof.
  unfold SubList.listed. destruct sortByKey.
  - split; [apply stable_sort_Permutation | apply sortBy_key_sorted].
  - split; [| split; [| split]].
    + rewrite reverse_Permutation. apply stable_sort_Permutation.
    + apply (StronglySorted_reverse (λ x y, x.2 ≤ y.2)), sort_value_sorted.
    + reflexivity.
    + apply sort_value_sorted.
Qed.

(** ** The player table *)

(** *** The export button *)

(** The claim C1 as stated fails: on first render the table shows the three
    players by descending kills, 10, 3, 1, while the export button hands
    [download] the input array in its own order, 3, 10, 1. *)
Lemma export_is_not_row_model :
  GameTable.kills <$> GameTable.getRowModel GameTable.threePlayers GameTable.initialState
  = [10; 3; 1]
  ∧ GameTable.kills <$> GameTable.rows
                (GameTable.onExportClick GameTable.threePlayers GameTable.initialState)
    = [3; 10; 1]
  ∧ GameTable.rows (GameTable.onExportClick GameTable.threePlayers GameTable.initialState)
    ≠ GameTable.getRowModel GameTable.threePlayers GameTable.initialState.
Proof.
  split; [reflexivity |]. split; [reflexivity |].
  intros H. apply (f_equal (fmap GameTable.kills)) in H. vm_compute in H. discriminate.
Qed.

(** C1, amended.  The export button hands [download] the [data] array the
    table was given, under the name ["game-table-"] followed by the table id;
    the call does not depend on the filters, the selection or the sort order
    of the table. *)
Theorem export_downloads_input (p : GameTable.Props) (st st' : GameTable.TableState)
    (values : list string) :
  GameTable.rows (GameTable.onExportClick p st) = GameTable.data p
  ∧ GameTable.filename (GameTable.onExportClick p st) = "game-table-" +:+ GameTable.tableId p
  ∧ GameTable.onExportClick p (GameTable.setPlayerFilter p values st)
    = GameTable.onExportClick p st
  ∧ GameTable.onExportClick p st' = GameTable.onExportClick p st.
Proof. repeat split. Qed.

(** *** The options of the player filter *)

Lemma existsb_player (data : list GameTable.Player) (name : string) :
  existsb (λ p, String.eqb (GameTable.player p) name) data = true
  ↔ name ∈ GameTable.player <$> data.
Proof.
  rewrite existsb_exists, list_elem_of_fmap. split.
  - intros (p & Hin & Heq). apply String.eqb_eq in Heq.
    exists p. split; [done |]. by apply list_elem_of_In.
  - intros (p & -> & Hin). exists p. split; [by apply list_elem_of_In |].
    apply String.eqb_refl.
Qed.

Lemma playerFilterOptions_values (data : list GameTable.Player) (pf : list string) :
  GameTable.value <$> GameTable.playerFilterOptions data pf
  = (GameTable.player <$> data)
    ++ List.filter (λ name, negb (existsb (λ p, String.eqb (GameTable.player p) name) data)) pf.
Proof.
  unfold GameTable.playerFilterOptions.
  rewrite fmap_app, <- !list_fmap_compose.
  f_equal. induction (List.filter _ pf) as [| x l IH]; [done |].
  rewrite fmap_cons. simpl. f_equal. exact IH.
Qed.

Lemma elem_of_List_filter {A : Type} (f : A → bool) (l : list A) (x : A) :
  x ∈ List.filter f l ↔ x ∈ l ∧ f x = true.
Proof. rewrite !list_elem_of_In. apply filter_In. Qed.

Lemma elem_of_option_values (data : list GameTable.Player) (pf : list string) (name : string) :
  name ∈ GameTable.value <$> GameTable.playerFilterOptions data pf
  ↔ name ∈ GameTable.player <$> data
    ∨ (name ∈ pf ∧ name ∉ GameTable.player <$> data).
Proof.
  rewrite playerFilterOptions_values, elem_of_app.
  rewrite elem_of_List_filter, negb_true_iff, <- existsb_player.
  destruct (existsb _ data); intuition congruence.
Qed.

(** C4.  The values offered by the player filter are the names of the
    current dataset followed by the selected names that the dataset lacks;
    as a set they are the union of the two.  Hence every selected name is
    offered whatever the dataset is, and after a swap of the dataset the
    selection is what it was and each of its names is still offered. *)
Theorem playerFilterOptions_sticky (p : GameTable.Props) (st : GameTable.TableState)
    (data' : list GameTable.Player) :
  let names := GameTable.player <$> GameTable.data p in
  let selected := GameTable.playerFilter st in
  let options := GameTable.playerFilterOptions (GameTable.data p) selected in
  let box' := GameTable.selectBox (GameTable.swapData data' (p, st)) in
  list_to_set (GameTable.value <$> options)
    =@{gset string} list_to_set names ∪ (list_to_set selected ∖ list_to_set names)
  ∧ (∀ name, name ∈ GameTable.value <$> options
             ↔ name ∈ names ∨ (name ∈ selected ∧ name ∉ names))
  ∧ Forall (λ o, GameTable.label o = GameTable.value o) options
  ∧ box'.2 = selected
  ∧ (∀ name, name ∈ selected → name ∈ GameTable.value <$> box'.1).
Proof.
  intros names selected options box'. split; [| split; [| split; [| split]]].
  - apply set_eq. intros name.
    rewrite elem_of_union, elem_of_difference, !elem_of_list_to_set.
    apply elem_of_option_values.
  - intros name. apply elem_of_option_values.
  - unfold options, GameTable.playerFilterOptions. apply Forall_app. split.
    + apply Forall_fmap, Forall_true. done.
    + apply Forall_fmap, Forall_true. done.
  - reflexivity.
  - intros name Hsel. unfold box', GameTable.selectBox, GameTable.swapData. simpl.
    apply elem_of_option_values.
    destruct (decide (name ∈ GameTable.player <$> data')); [by left | by right].
Qed.

(** *** The focus effect *)

Lemma has_class_elem_of (c : string) (cls : list string) :
  GameTable.has_class c cls = true ↔ c ∈ cls.
Proof.
  unfold GameTable.has_class. rewrite existsb_exists. split.
  - intros (x & Hin & Heq). apply String.eqb_eq in Heq as ->. by apply list_elem_of_In.
  - intros Hin. exists c. split; [by apply list_elem_of_In | apply String.eqb_refl].
Qed.

Lemma elem_of_classList_add (tokens cls : list string) (c : string) :
  c ∈ GameTable.classList_add tokens cls ↔ c ∈ cls ∨ c ∈ tokens.
Proof.
  unfold GameTable.classList_add. revert cls.
  induction tokens as [| t tokens IH]; intros cls; simpl.
  - rewrite elem_of_nil. tauto.
  - rewrite IH, elem_of_cons. destruct (GameTable.has_class t cls) eqn:Ht.
    + apply has_class_elem_of in Ht. split; [tauto |].
      intros [H | [-> | H]]; tauto.
    + rewrite elem_of_app, list_elem_of_singleton. tauto.
Qed.

Lemma elem_of_classList_remove (tokens cls : list string) (c : string) :
  c ∈ GameTable.classList_remove tokens cls ↔ c ∈ cls ∧ c ∉ tokens.
Proof.
  unfold GameTable.classList_remove.
  rewrite elem_of_List_filter, negb_true_iff.
  split; intros [Hc Ht]; (split; [exact Hc |]).
  - intros Hin%has_class_elem_of. congruence.
  - destruct (GameTable.has_class c tokens) eqn:E; [| reflexivity].
    apply has_class_elem_of in E. contradiction.
Qed.

Lemma classList_remove_plain (cls : list string) :
  GameTable.plain (GameTable.classList_remove GameTable.style cls).
Proof. intros c Hc H. apply elem_of_classList_remove in H. tauto. Qed.

Lemma fire_lookup (els : gmap string (list string)) (t : Z * string) (eid : string) :
  GameTable.fire els t !! eid
  = if decide (t.2 = eid)
    then GameTable.classList_remove GameTable.style <$> els !! eid
    else els !! eid.
Proof.
  unfold GameTable.fire. rewrite lookup_alter.
  destruct (decide (t.2 = eid)) as [-> |]; reflexivity.
Qed.

(** Callbacks aimed at other elements leave an element as it is. *)
Lemma foldl_fire_other (ts : list (Z * string)) (els : gmap string (list string))
    (eid : string) :
  Forall (λ t, t.2 ≠ eid) ts → foldl GameTable.fire els ts !! eid = els !! eid.
Proof.
  revert els. induction ts as [| t ts IH]; intros els Hts; simpl; [done |].
  apply Forall_cons in Hts as [Ht Hts].
  rewrite IH by exact Hts. rewrite fire_lookup. by rewrite decide_False.
Qed.

Lemma foldl_fire_plain (ts : list (Z * string)) (els : gmap string (list string))
    (eid : string) (cls : list string) :
  els !! eid = Some cls → GameTable.plain cls →
  ∃ cls', foldl GameTable.fire els ts !! eid = Some cls' ∧ GameTable.plain cls'.
Proof.
  revert els cls. induction ts as [| t ts IH]; intros els cls Hcls Hplain; simpl; [eauto |].
  destruct (decide (t.2 = eid)) as [Heq | Hne].
  - eapply (IH _ (GameTable.classList_remove GameTable.style cls)).
    + rewrite fire_lookup, decide_True by exact Heq. by rewrite Hcls.
    + apply classList_remove_plain.
  - eapply (IH _ cls); [| exact Hplain].
    rewrite fire_lookup, decide_False by exact Hne. exact Hcls.
Qed.

(** Once a callback aimed at an element has run, the element shows no class
    of the highlight, whatever other callbacks ran with it. *)
Lemma foldl_fire_hit (ts : list (Z * string)) (els : gmap string (list string))
    (eid : string) (cls : list string) (t : Z * string) :
  els !! eid = Some cls → t ∈ ts → t.2 = eid →
  ∃ cls', foldl GameTable.fire els ts !! eid = Some cls' ∧ GameTable.plain cls'.
Proof.
  revert els cls. induction ts as [| t' ts IH]; intros els cls Hcls Hin Heq; simpl.
  - by apply elem_of_nil in Hin.
  - apply elem_of_cons in Hin as [<- | Hin].
    + eapply foldl_fire_plain.
      * rewrite fire_lookup, decide_True by exact Heq. by rewrite Hcls.
      * apply classList_remove_plain.
    + destruct (decide (t'.2 = eid)) as [Heq' | Hne].
      * eapply IH; [| exact Hin | exact Heq].
        rewrite fire_lookup, decide_True by exact Heq'. by rewrite Hcls.
      * eapply IH; [| exact Hin | exact Heq].
        rewrite fire_lookup, decide_False by exact Hne. exact Hcls.
Qed.

Lemma requestFocus_found (p : GameTable.Page) (pid : string) (cls : list string) :
  GameTable.elements p !! ("row-" +:+ pid) = Some cls →
  GameTable.requestFocus pid p
  = {| GameTable.focusedPlayerId := None;
       GameTable.elements :=
         <["row-" +:+ pid := GameTable.classList_add GameTable.style cls]>
           (GameTable.elements p);
       GameTable.scrolled := ("row-" +:+ pid) :: GameTable.scrolled p;
       GameTable.timeouts :=
         GameTable.timeouts p ++ [(GameTable.clock p + 2000, "row-" +:+ pid)];
       GameTable.clock := GameTable.clock p |}.
Proof.
  intros Hcls. unfold GameTable.requestFocus, GameTable.focusEffect.
  cbn [GameTable.setFocusedPlayerId GameTable.focusedPlayerId GameTable.elements].
  rewrite Hcls. reflexivity.
Qed.

Lemma requestFocus_missing (p : GameTable.Page) (pid : string) :
  GameTable.elements p !! ("row-" +:+ pid) = None →
  GameTable.requestFocus pid p = GameTable.setFocusedPlayerId None p.
Proof.
  intros Hcls. unfold GameTable.requestFocus, GameTable.focusEffect.
  cbn [GameTable.setFocusedPlayerId GameTable.focusedPlayerId GameTable.elements].
  rewrite Hcls. reflexivity.
Qed.

(** C7.  When the focus is requested on a player whose row is in the
    document, the row is scrolled into view, it carries every class of the
    highlight and keeps the classes it had, a callback is set for 2000
    milliseconds later, and the focused id is back to null.  If no older
    callback is pending for that row, the highlight is still on the row at
    any time before the 2000 milliseconds are over; it is off the row at
    any time from 2000 milliseconds on.  Requesting the focus on the same
    player again scrolls the row into view again. *)
Theorem focus_highlights_row (p : GameTable.Page) (pid : string) (cls : list string) :
  GameTable.elements p !! ("row-" +:+ pid) = Some cls →
  let eid := "row-" +:+ pid in
  let p1 := GameTable.requestFocus pid p in
  GameTable.focusedPlayerId (GameTable.setFocusedPlayerId (Some pid) p) = Some pid
  ∧ GameTable.focusedPlayerId p1 = None
  ∧ GameTable.scrolled p1 = eid :: GameTable.scrolled p
  ∧ (∀ c, c ∈ GameTable.row_classes pid p1 ↔ c ∈ cls ∨ c ∈ GameTable.style)
  ∧ GameTable.timeouts p1 = GameTable.timeouts p ++ [(GameTable.clock p + 2000, eid)]
  ∧ (∀ dt c, 0 ≤ dt < 2000 →
       Forall (λ t, t.2 ≠ eid) (GameTable.timeouts p) →
       c ∈ GameTable.style → c ∈ GameTable.row_classes pid (GameTable.advance dt p1))
  ∧ (∀ dt c, 2000 ≤ dt →
       c ∈ GameTable.style → c ∉ GameTable.row_classes pid (GameTable.advance dt p1))
  ∧ GameTable.scrolled (GameTable.requestFocus pid p1) = eid :: eid :: GameTable.scrolled p.
Proof.
  intros Hcls eid p1.
  assert (Hp1 : p1 = _) by exact (requestFocus_found p pid cls Hcls).
  assert (Hrow : GameTable.elements p1 !! eid
                 = Some (GameTable.classList_add GameTable.style cls)).
  { rewrite Hp1. cbn [GameTable.elements]. apply lookup_insert_eq. }
  assert (Htime : GameTable.timeouts p1
                  = GameTable.timeouts p ++ [(GameTable.clock p + 2000, eid)])
    by (by rewrite Hp1).
  assert (Hclock : GameTable.clock p1 = GameTable.clock p) by (by rewrite Hp1).
  split; [reflexivity |]. split; [by rewrite Hp1 |]. split; [by rewrite Hp1 |].
  split; [| split; [exact Htime | split; [| split]]].
  - intros c. unfold GameTable.row_classes. fold eid. rewrite Hrow. cbn [default].
    apply elem_of_classList_add.
  - intros dt c Hdt Hold Hc. unfold GameTable.row_classes, GameTable.advance. fold eid.
    cbn [GameTable.elements]. rewrite foldl_fire_other.
    + rewrite Hrow. cbn [default]. apply elem_of_classList_add. by right.
    + rewrite Htime, Hclock. apply Forall_forall. intros t Ht.
      apply elem_of_List_filter in Ht as [Ht Hdue].
      apply elem_of_app in Ht as [Ht | Ht].
      * rewrite Forall_forall in Hold. by apply Hold.
      * apply list_elem_of_singleton in Ht as ->. cbn [fst] in Hdue.
        apply Z.leb_le in Hdue. lia.
  - intros dt c Hdt Hc. unfold GameTable.row_classes, GameTable.advance. fold eid.
    cbn [GameTable.elements].
    destruct (foldl_fire_hit
                (List.filter (λ x, x.1 <=? GameTable.clock p1 + dt) (GameTable.timeouts p1))
                (GameTable.elements p1) eid _ (GameTable.clock p + 2000, eid) Hrow)
      as (cls' & -> & Hplain).
    + apply elem_of_List_filter. split.
      * rewrite Htime. apply elem_of_app. right. by apply list_elem_of_singleton.
      * rewrite Hclock. cbn [fst]. apply Z.leb_le. lia.
    + reflexivity.
    + cbn [default]. by apply Hplain.
  - rewrite (requestFocus_found p1 pid _ Hrow). cbn [GameTable.scrolled]. by rewrite Hp1.
Qed.

Lemma focus_highlights_row_witness :
  GameTable.scrolled (GameTable.requestFocus "2" GameTable.threeRows) = ["row-2"]
  ∧ GameTable.focusedPlayerId (GameTable.requestFocus "2" GameTable.threeRows) = None.
Proof.
  pose proof (focus_highlights_row GameTable.threeRows "2" ["text-sm"; "h-10"] eq_refl)
    as (_ & Hnull & Hscroll & _).
  split; [exact Hscroll | exact Hnull].
Defined.

(** C9.  The effect always leaves the focused id at null.  When the document
    has no row for the requested player, a focus request changes nothing
    else: no scroll, no class, no callback. *)
Theorem focus_always_cleared (p : GameTable.Page) (pid : string) :
  GameTable.focusedPlayerId (GameTable.focusEffect p) = None
  ∧ GameTable.focusedPlayerId (GameTable.requestFocus pid p) = None
  ∧ (GameTable.elements p !! ("row-" +:+ pid) = None →
     GameTable.requestFocus pid p = GameTable.setFocusedPlayerId None p).
Proof.
  split; [| split].
  - unfold GameTable.focusEffect. destruct (GameTable.focusedPlayerId p) eqn:Hf; [| exact Hf].
    reflexivity.
  - unfold GameTable.requestFocus, GameTable.focusEffect. reflexivity.
  - apply requestFocus_missing.
Qed.

(** * Further properties *)

(** ** The polling dashboard: timer, pause, responses *)

(** In every state the dashboard can reach after it is mounted, the timer
    agrees with the component.  While the component is mounted: no timer
    while paused; otherwise exactly one, set with the timeout of the current
    refresh interval, whose next firing has not been missed.  Once a render
    has thrown and the component is unmounted: no timer. *)
Theorem mounted_timer_agrees (host : Host) (t0 : Z) (evs : list LiveScore.event)
    (w : LiveScore.World) :
  LiveScore.run host (LiveScore.mount host t0) evs = Some w →
  if LiveScore.mounted w
  then (LiveScore.isPaused (LiveScore.view w) = true → LiveScore.interval w = None)
       ∧ (LiveScore.isPaused (LiveScore.view w) = false →
          ∃ due, LiveScore.interval w
                 = Some (due, LiveScore.delay_ms host
                                (LiveScore.refreshIntervalSec (LiveScore.view w)))
                 ∧ LiveScore.clock w ≤ due)
  else LiveScore.interval w = None
       ∧ LiveScore.step host w LiveScore.Tick = None.
Proof.
  intros Hrun.
  pose proof (run_timer_ok host evs _ _ (mount_timer_ok host t0) Hrun) as Hok.
  unfold LiveScore.timer_ok in Hok.
  destruct (LiveScore.mounted w).
  - destruct (LiveScore.interval w) as [[due period] |].
    + destruct Hok as (Hp & -> & Hdue). split; [congruence |]. intros _. eauto.
    + split; [done | congruence].
  - destruct Hok as (Hi & _). split; [exact Hi |]. simpl. by rewrite Hi.
Qed.

Lemma mounted_timer_agrees_witness :
  ∃ due, LiveScore.interval LiveScore.resting = Some (due, 10000)
         ∧ LiveScore.clock LiveScore.resting ≤ due.
Proof.
  pose proof (mounted_timer_agrees LiveScore.plain_host 0 LiveScore.first_tick
                LiveScore.resting first_tick_rests) as H.
  simpl in H. exact (proj2 H eq_refl).
Defined.

Lemma paused_no_timer (host : Host) (w : LiveScore.World) :
  LiveScore.timer_ok host w →
  LiveScore.isPaused (LiveScore.view w) = true →
  LiveScore.interval w = None.
Proof.
  unfold LiveScore.timer_ok. intros Hok Hp.
  destruct (LiveScore.mounted w); [| tauto].
  destruct (LiveScore.interval w) as [[due period] |]; [| done].
  destruct Hok as (Hq & _). congruence.
Qed.

(** While the dashboard is paused the timer cannot fire, however much time
    passes: no fetch is started until the pause is lifted. *)
Theorem paused_never_ticks (host : Host) (t0 : Z) (evs : list LiveScore.event)
    (w : LiveScore.World) (dt : Z) :
  LiveScore.run host (LiveScore.mount host t0) evs = Some w →
  LiveScore.isPaused (LiveScore.view w) = true →
  0 ≤ dt →
  LiveScore.step host w LiveScore.Tick = None
  ∧ ∃ w', LiveScore.step host w (LiveScore.Elapse dt) = Some w'
          ∧ LiveScore.step host w' LiveScore.Tick = None
          ∧ LiveScore.statsPending w' = LiveScore.statsPending w
          ∧ LiveScore.infoPending w' = LiveScore.infoPending w.
Proof.
  intros Hrun Hp Hdt.
  pose proof (paused_no_timer host w
                (run_timer_ok host evs _ _ (mount_timer_ok host t0) Hrun) Hp) as Hnone.
  simpl. rewrite Hnone.
  split; [reflexivity |].
  apply Z.leb_le in Hdt. rewrite Hdt. simpl.
  eexists. split; [reflexivity |]. simpl. rewrite Hnone. done.
Qed.

Lemma paused_never_ticks_witness :
  LiveScore.step LiveScore.plain_host
    (LiveScore.setPaused LiveScore.plain_host true LiveScore.resting) LiveScore.Tick
  = None.
Proof.
  exact (proj1 (paused_never_ticks LiveScore.plain_host 0
                  (LiveScore.first_tick ++ [LiveScore.TogglePause])
                  (LiveScore.setPaused LiveScore.plain_host true LiveScore.resting)
                  60000 eq_refl eq_refl ltac:(lia))).
Defined.

(** Clicking the pause link of the mounted dashboard while it runs removes
    the timer; clicking it while paused installs a timer, set with the
    timeout of the refresh interval, whose first firing is that long after
    the click: before that the timer cannot fire, at that time it does.  The
    click leaves the snapshots, the loading flag, the refresh interval and
    the fetches under way as they are. *)
Theorem toggle_pause_reschedules (host : Host) (w : LiveScore.World) :
  LiveScore.mounted w = true →
  let d := LiveScore.delay_ms host (LiveScore.refreshIntervalSec (LiveScore.view w)) in
  ∃ w', LiveScore.step host w LiveScore.TogglePause = Some w'
    ∧ LiveScore.isPaused (LiveScore.view w') = negb (LiveScore.isPaused (LiveScore.view w))
    ∧ LiveScore.interval w'
      = (if LiveScore.isPaused (LiveScore.view w)
         then Some (LiveScore.clock w + d, d) else None)
    ∧ (LiveScore.stats (LiveScore.view w'), LiveScore.serverState (LiveScore.view w'),
       LiveScore.isLoading (LiveScore.view w'), LiveScore.refreshIntervalSec (LiveScore.view w'))
      = (LiveScore.stats (LiveScore.view w), LiveScore.serverState (LiveScore.view w),
         LiveScore.isLoading (LiveScore.view w), LiveScore.refreshIntervalSec (LiveScore.view w))
    ∧ (LiveScore.statsPending w', LiveScore.infoPending w', LiveScore.donePending w')
      = (LiveScore.statsPending w, LiveScore.infoPending w, LiveScore.donePending w)
    ∧ (LiveScore.isPaused (LiveScore.view w) = true →
       (∀ dt, 0 ≤ dt < d →
          LiveScore.run host w' [LiveScore.Elapse dt; LiveScore.Tick] = None)
       ∧ is_Some (LiveScore.run host w' [LiveScore.Elapse d; LiveScore.Tick])).
Proof.
  intros Hm d. eexists. split; [simpl; rewrite Hm; reflexivity |].
  pose proof (delay_ms_nonneg host (LiveScore.refreshIntervalSec (LiveScore.view w))) as Hd.
  fold d in Hd.
  unfold LiveScore.setPaused.
  rewrite (Bool.eqb_negb2 (LiveScore.isPaused (LiveScore.view w))).
  destruct (LiveScore.isPaused (LiveScore.view w)) eqn:Hp; cbn.
  - split; [done |]. split; [done |]. split; [done |]. split; [done |].
    intros _. fold d. split.
    + intros dt Hdt.
      destruct (0 <=? dt) eqn:H0; [| reflexivity].
      destruct (LiveScore.clock w + dt <=? LiveScore.clock w + d) eqn:H1; [| reflexivity].
      cbn. destruct (Z.eqb_spec (LiveScore.clock w + dt) (LiveScore.clock w + d)); [lia | done].
    + assert (H0 : (0 <=? d) = true) by (apply Z.leb_le; lia).
      rewrite H0, Z.leb_refl. cbn. rewrite Z.eqb_refl. by eexists.
  - split; [done |]. split; [done |]. split; [done |]. split; [done |]. intros [=].
Qed.

Lemma toggle_pause_reschedules_witness :
  ∃ w', LiveScore.step LiveScore.plain_host
          (LiveScore.setPaused LiveScore.plain_host true LiveScore.resting)
          LiveScore.TogglePause = Some w'
        ∧ LiveScore.interval w' = Some (20000, 10000).
Proof.
  destruct (toggle_pause_reschedules LiveScore.plain_host
              (LiveScore.setPaused LiveScore.plain_host true LiveScore.resting) eq_refl)
    as (w' & Hstep & _ & Hi & _).
  exists w'. split; [exact Hstep | exact Hi].
Defined.

(** A statistics response that repeats the refresh interval in use leaves
    the timer alone: the countdown to the next tick is not restarted by the
    responses that arrive meanwhile. *)
Theorem repeated_interval_keeps_timer (host : Host) (w : LiveScore.World) (data : val)
    (m : list (string * val)) (v : val) (n : nat) :
  LiveScore.statsPending w = S n →
  prop data "result" = Some (VMap m) →
  lookup_key "refresh_interval_sec" m = Some v →
  strict_eq (LiveScore.refreshIntervalSec (LiveScore.view w)) v = true →
  ∃ w', LiveScore.step host w (LiveScore.StatsSettled (LiveScore.Resolved data)) = Some w'
    ∧ LiveScore.interval w' = LiveScore.interval w
    ∧ LiveScore.clock w' = LiveScore.clock w
    ∧ LiveScore.refreshIntervalSec (LiveScore.view w')
      = LiveScore.refreshIntervalSec (LiveScore.view w)
    ∧ LiveScore.stats (LiveScore.view w') = VMap m.
Proof.
  intros Hn Hr Hv Heq. eexists. split; [simpl; rewrite Hn; reflexivity |].
  rewrite (onStatsData_map host data m _ Hr), Hv. cbn [default].
  unfold LiveScore.setRefreshIntervalSec. cbn. rewrite Heq. cbn.
  apply strict_eq_eq in Heq. done.
Qed.

Lemma repeated_interval_keeps_timer_witness :
  ∃ w', LiveScore.step LiveScore.plain_host
          (LiveScore.getData LiveScore.resting)
          (LiveScore.StatsSettled (LiveScore.Resolved (LiveScore.stats_response 10)))
        = Some w'
        ∧ LiveScore.interval w' = Some (10000, 10000).
Proof.
  destruct (repeated_interval_keeps_timer LiveScore.plain_host
              (LiveScore.getData LiveScore.resting) (LiveScore.stats_response 10)
              [("snapshot_timestamp", VNum 1700000000);
               ("refresh_interval_sec", VNum 10); ("stats", VList [])]
              (VNum 10) 0 eq_refl eq_refl eq_refl eq_refl)
    as (w' & Hstep & Hi & _).
  exists w'. split; [exact Hstep | exact Hi].
Defined.

Lemma step_keeps_loading_true (host : Host) (w w' : LiveScore.World) (e : LiveScore.event) :
  e ≠ LiveScore.InfoDone →
  LiveScore.step host w e = Some w' →
  LiveScore.isLoading (LiveScore.view w) = true →
  LiveScore.isLoading (LiveScore.view w') = true.
Proof.
  intros He Hstep Hl. destruct e as [dt | | | o | o |].
  - apply step_elapse in Hstep as ->. done.
  - apply step_tick_view in Hstep as (-> & _). done.
  - apply step_toggle in Hstep as (_ & ->).
    destruct (setPaused_frame host (negb (LiveScore.isPaused (LiveScore.view w))) w)
      as (-> & _). done.
  - destruct o as [| data].
    + apply step_stats_rejected in Hstep as (-> & _). done.
    + apply step_stats_resolved_keeps in Hstep as (_ & -> & _). done.
  - destruct o as [| data].
    + apply step_info_rejected in Hstep as (-> & _). done.
    + destruct (prop data "result") as [r |] eqn:Hr.
      * destruct (step_info_resolved host w w' data r Hr Hstep) as (-> & _). done.
      * destruct (step_info_unreadable host w w' data Hr Hstep) as (-> & _). done.
  - done.
Qed.

(** After a tick the loading flag stays raised until the last step of a
    public-info chain runs: neither the passing of time, nor a click on the
    pause link, nor any outcome of the statistics fetch, nor a failed
    public-info fetch lowers it. *)
Theorem loading_until_public_info_done (host : Host) (w w' : LiveScore.World)
    (evs : list LiveScore.event) :
  LiveScore.run host w (LiveScore.Tick :: evs) = Some w' →
  Forall (λ e, e ≠ LiveScore.InfoDone) evs →
  LiveScore.isLoading (LiveScore.view w') = true.
Proof.
  intros Hrun Hevs. apply run_cons_inv in Hrun as (w1 & Hstep & Hrun).
  apply step_tick_view in Hstep as (Hview & _).
  assert (Hl : LiveScore.isLoading (LiveScore.view w1) = true) by (by rewrite Hview).
  clear Hview. revert w1 Hl Hrun.
  induction Hevs as [| e evs He Hevs IH]; intros w1 Hl Hrun.
  - apply run_nil_inv in Hrun as ->. exact Hl.
  - apply run_cons_inv in Hrun as (w2 & Hstep & Hrun).
    eapply IH; [| exact Hrun]. eapply step_keeps_loading_true; eauto.
Qed.

Lemma loading_until_public_info_done_witness :
  ∃ w', LiveScore.run LiveScore.plain_host LiveScore.resting
          [LiveScore.Tick; LiveScore.StatsSettled (LiveScore.Resolved (LiveScore.stats_response 10));
           LiveScore.InfoSettled LiveScore.Rejected; LiveScore.Elapse 5000]
        = Some w'
        ∧ LiveScore.isLoading (LiveScore.view w') = true.
Proof.
  eexists. split; [reflexivity |].
  apply (loading_until_public_info_done LiveScore.plain_host LiveScore.resting _
           [LiveScore.StatsSettled (LiveScore.Resolved (LiveScore.stats_response 10));
            LiveScore.InfoSettled LiveScore.Rejected; LiveScore.Elapse 5000]
           eq_refl).
  repeat constructor; discriminate.
Defined.

(** ** The polling dashboard: rendering after a response *)

(** After a statistics response the list of scores can be read, so that the
    dashboard renders, exactly when the result of the response is absent or
    otherwise falsy, a list or a map; a result that is a non-empty string, a
    non-zero number or [true] is stored as the snapshot and reading the
    scores from it throws. *)
Theorem scores_after_statistics (host : Host) (w : LiveScore.World) (data r : val)
    (n : nat) :
  LiveScore.statsPending w = S n →
  prop data "result" = Some r →
  ∃ w', LiveScore.step host w (LiveScore.StatsSettled (LiveScore.Resolved data)) = Some w'
    ∧ LiveScore.stats (LiveScore.view w') = js_or r new_iList
    ∧ (is_Some (LiveRender.scores (LiveScore.stats (LiveScore.view w')))
       ↔ truthy r = false ∨ (∃ l, r = VList l) ∨ (∃ m, r = VMap m)).
Proof.
  intros Hn Hr. eexists. split; [simpl; rewrite Hn; reflexivity |].
  assert (Hstats : ∀ w0, LiveScore.stats (LiveScore.view (LiveScore.onStatsData host data w0))
                         = js_or r new_iList).
  { intros w0.
    destruct (onStatsData_cases host data w0)
      as [(Hnone & _) | [(r' & Hr' & _ & ->) | (r' & v & Hr' & _ & _ & ->)]].
    - congruence.
    - assert (r' = r) as -> by congruence. reflexivity.
    - assert (r' = r) as -> by congruence. by rewrite setRefreshIntervalSec_view. }
  rewrite Hstats. split; [reflexivity |].
  unfold LiveRender.scores, js_or, new_iList.
  destruct r as [| | b | k | s | l | m]; simpl.
  - split; [by left | by eexists].
  - split; [by left | by eexists].
  - destruct b; simpl.
    + split; [by intros [? [=]] | intros [[=] | [[? [=]] | [? [=]]]]].
    + split; [by left | by eexists].
  - destruct (k =? 0); simpl.
    + split; [by left | by eexists].
    + split; [by intros [? [=]] | intros [[=] | [[? [=]] | [? [=]]]]].
  - destruct (String.eqb s ""); simpl.
    + split; [by left | by eexists].
    + split; [by intros [? [=]] | intros [[=] | [[? [=]] | [? [=]]]]].
  - split; [right; left; by eexists | by eexists].
  - split; [right; right; by eexists | by eexists].
Qed.

Lemma scores_after_statistics_witness :
  ∃ w', LiveScore.step LiveScore.plain_host (LiveScore.mount LiveScore.plain_host 0)
          (LiveScore.StatsSettled
             (LiveScore.Resolved (VMap [("result", VStr "no game running")])))
        = Some w'
        ∧ LiveScore.stats (LiveScore.view w') = VStr "no game running"
        ∧ LiveRender.scores (LiveScore.stats (LiveScore.view w')) = None.
Proof.
  destruct (scores_after_statistics LiveScore.plain_host
              (LiveScore.mount LiveScore.plain_host 0)
              (VMap [("result", VStr "no game running")]) (VStr "no game running") 0
              eq_refl eq_refl) as (w' & Hstep & Hstats & Hiff).
  exists w'. split; [exact Hstep |]. split; [exact Hstats |].
  rewrite Hstats. reflexivity.
Defined.

(** A public-info response without a result stores [undefined] as the
    server state.  The document title and the next-map line cannot be
    computed from it: the render throws and the component is unmounted.  The
    timer is cleared and cannot fire, the pause link is gone, and the step
    that lowers the loading flag is not queued: the flag keeps the value it
    had. *)
Theorem info_without_result (host : Host) (w : LiveScore.World)
    (fields : list (string * val)) (n : nat) :
  LiveScore.infoPending w = S n →
  lookup_key "result" fields = None →
  ∃ w', LiveScore.step host w (LiveScore.InfoSettled (LiveScore.Resolved (VMap fields)))
        = Some w'
    ∧ LiveScore.serverState (LiveScore.view w') = VUndef
    ∧ LiveRender.documentTitle (LiveScore.serverState (LiveScore.view w')) = None
    ∧ LiveHeader.nextMapString host (LiveScore.serverState (LiveScore.view w')) = None
    ∧ LiveScore.mounted w' = false
    ∧ LiveScore.interval w' = None
    ∧ LiveScore.donePending w' = 0%nat
    ∧ LiveScore.isLoading (LiveScore.view w') = LiveScore.isLoading (LiveScore.view w)
    ∧ LiveScore.step host w' LiveScore.Tick = None
    ∧ LiveScore.step host w' LiveScore.TogglePause = None
    ∧ LiveScore.step host w' LiveScore.InfoDone = None.
Proof.
  intros Hn Hr. eexists. split.
  - simpl. rewrite Hn. unfold LiveScore.onInfoData. simpl. rewrite Hr. reflexivity.
  - do 9 (split; [reflexivity |]). reflexivity.
Qed.

Lemma info_without_result_witness :
  ∃ w', LiveScore.step LiveScore.plain_host (LiveScore.mount LiveScore.plain_host 0)
          (LiveScore.InfoSettled (LiveScore.Resolved (VMap [("failed", VBool true)])))
        = Some w'
        ∧ LiveScore.mounted w' = false
        ∧ LiveScore.interval w' = None.
Proof.
  destruct (info_without_result LiveScore.plain_host (LiveScore.mount LiveScore.plain_host 0)
              [("failed", VBool true)] 0 eq_refl eq_refl)
    as (w' & Hstep & _ & _ & _ & Hm & Hi & _).
  exists w'. split; [exact Hstep |]. split; [exact Hm | exact Hi].
Defined.

(** ** The next-map line: edge cases *)

(** The top-voted map is compared with the name of the next map by
    identity.  When the winning entry holds a non-empty map or list in place
    of a name, the comparison fails whatever the next map is, even one that
    holds the same entries, and the line is the one without the tally.  The
    empty list is one object wherever it occurs: an empty list as winning
    entry and as next map gives the line with the tally. *)
Theorem nextMapString_collection_never_tallies (host : Host) (m n t nm : val)
    (more : list val) :
  (∃ x l, m = VList (x :: l)) ∨ (∃ kv f, m = VMap (kv :: f)) →
  LiveHeader.nextMapString host (LiveHeader.snapshot (VList [m; n] :: more) t nm)
  = Some ("Nextmap: " +:+ toStr host nm)
  ∧ LiveHeader.nextMapString host
      (LiveHeader.snapshot (VList [VList []; n] :: more) t (VList []))
    = Some ("Nextmap " +:+ toStr host (VList []) +:+ " with " +:+ toStr host n
            +:+ " out of " +:+ toStr host t +:+ " votes").
Proof.
  intros Hm. rewrite !nextMapString_snapshot. split; [| reflexivity].
  destruct Hm as [(x & l & ->) | (kv & f & ->)];
    destruct nm as [| | b | k | s | [| y l'] | [| kv' f']]; reflexivity.
Qed.

Lemma nextMapString_collection_never_tallies_witness :
  LiveHeader.nextMapString LiveScore.plain_host
    (LiveHeader.snapshot [VList [VMap [("pretty_name", VStr "Carentan")]; VNum 5]]
       (VNum 8) (VStr "Carentan"))
  = Some "Nextmap: Carentan".
Proof.
  apply (nextMapString_collection_never_tallies LiveScore.plain_host
           (VMap [("pretty_name", VStr "Carentan")]) (VNum 5) (VNum 8) (VStr "Carentan") []).
  right. by do 2 eexists.
Defined.

(** With an empty list of winning maps, or one whose first entry is null,
    the line is built from the fallback map [""] with 0 votes: the tally-free
    line, unless the name of the next map is itself the empty string. *)
Theorem nextMapString_no_winner (host : Host) (t nm : val) (more : list val) :
  let line := if strict_eq (VStr "") nm
              then "Nextmap " +:+ toStr host nm +:+ " with 0 out of "
                   +:+ toStr host t +:+ " votes"
              else "Nextmap: " +:+ toStr host nm in
  LiveHeader.nextMapString host (LiveHeader.snapshot [] t nm) = Some line
  ∧ LiveHeader.nextMapString host (LiveHeader.snapshot (VNull :: more) t nm) = Some line.
Proof.
  split; unfold LiveHeader.nextMapString, LiveHeader.snapshot; cbn;
    destruct nm as [| | b | k | s | l | f]; try reflexivity; destruct s; reflexivity.
Qed.

(** ** Durations and elapsed time *)

Lemma substring_time (a b c d e f : Ascii.ascii) :
  String.substring 0 5
    (String a (String b EmptyString) +:+ ":" +:+ String c (String d EmptyString)
     +:+ ":" +:+ String e (String f EmptyString))
  = String a (String b EmptyString) +:+ ":" +:+ String c (String d EmptyString).
Proof. reflexivity. Qed.

Lemma isoTime_day (ms k : Z) :
  LiveRender.isoTime (ms + 86400000 * k) = LiveRender.isoTime ms.
Proof.
  unfold LiveRender.isoTime.
  replace (ms + 86400000 * k) with (ms + (24 * k) * 3600000) at 1 by lia.
  replace (ms + 86400000 * k) with (ms + (1440 * k) * 60000) at 1 by lia.
  replace (ms + 86400000 * k) with (ms + (86400 * k) * 1000) by lia.
  rewrite !Z.div_add by lia.
  replace (ms / 3600000 + 24 * k) with (ms / 3600000 + k * 24) by lia.
  replace (ms / 60000 + 1440 * k) with (ms / 60000 + (24 * k) * 60) by lia.
  replace (ms / 1000 + 86400 * k) with (ms / 1000 + (1440 * k) * 60) by lia.
  rewrite !Z.mod_add by lia. reflexivity.
Qed.

(** [durationToHour] prints the hours and minutes of a duration given in
    seconds, hours counted modulo 24: whole days and the seconds are
    dropped, so that a duration and the same duration plus any number of
    days print alike. *)
Theorem durationToHour_wraps (val k : Z) :
  -62167219200 ≤ val < 253402300800 →
  -62167219200 ≤ val + 86400 * k < 253402300800 →
  LiveRender.durationToHour val
  = LiveRender.pad2 ((val / 3600) mod 24) +:+ ":" +:+ LiveRender.pad2 ((val / 60) mod 60)
  ∧ LiveRender.durationToHour (val + 86400 * k) = LiveRender.durationToHour val
  ∧ LiveRender.durationToHour (val - val mod 60) = LiveRender.durationToHour val.
Proof.
  intros _ _.
  assert (Hfmt : ∀ v, LiveRender.durationToHour v
                      = LiveRender.pad2 ((v / 3600) mod 24) +:+ ":"
                        +:+ LiveRender.pad2 ((v / 60) mod 60)).
  { intros v. unfold LiveRender.durationToHour, LiveRender.isoTime, LiveRender.pad2.
    rewrite substring_time.
    replace 3600000 with (3600 * 1000) by lia. replace 60000 with (60 * 1000) by lia.
    rewrite !Z.div_mul_cancel_r by lia. reflexivity. }
  split; [apply Hfmt |]. split.
  - unfold LiveRender.durationToHour.
    replace ((val + 86400 * k) * 1000) with (val * 1000 + 86400000 * k) by lia.
    by rewrite isoTime_day.
  - rewrite !Hfmt.
    assert (H60 : (val - val mod 60) / 60 = val / 60).
    { rewrite (Z.div_mod val 60) at 1 by lia.
      replace (60 * (val / 60) + val mod 60 - val mod 60) with (val / 60 * 60) by lia.
      apply Z.div_mul. lia. }
    assert (H3600 : (val - val mod 60) / 3600 = val / 3600).
    { replace 3600 with (60 * 60) by lia. rewrite <- !Z.div_div by lia.
      by rewrite H60. }
    by rewrite H60, H3600.
Qed.

Lemma durationToHour_wraps_witness :
  LiveRender.durationToHour (90061 + 86400 * 2) = LiveRender.durationToHour 90061
  ∧ LiveRender.durationToHour 90061 = "01:01".
Proof.
  pose proof (durationToHour_wraps 90061 2 ltac:(lia) ltac:(lia)) as (Hfmt & Hwrap & _).
  split; [exact Hwrap |]. rewrite Hfmt. reflexivity.
Defined.

(** The time since the map started reads ["N/A"] when the server state has
    no current map, no start, or a start of 0; for any other number of
    seconds it is the time of day of the difference between now and the
    start, which comes back to the same reading every 24 hours. *)
Theorem started_elapsed (host : Host) (now s k : Z) (fields cm : list (string * val)) :
  lookup_key "current_map" fields = Some (VMap cm) →
  lookup_key "start" cm = Some (VNum s) →
  -62167219200000 ≤ now - s * 1000 < 253402300800000 →
  -62167219200000 ≤ now + 86400000 * k - s * 1000 < 253402300800000 →
  LiveRender.started host now (VMap fields)
  = Some (if s =? 0 then "N/A" else LiveRender.isoTime (now - s * 1000))
  ∧ LiveRender.started host (now + 86400000 * k) (VMap fields)
    = LiveRender.started host now (VMap fields)
  ∧ LiveRender.started host now (VMap []) = Some "N/A"
  ∧ LiveRender.started host now (VMap [("current_map", VMap [])]) = Some "N/A".
Proof.
  intros Hcm Hs _ _.
  assert (H : ∀ t, LiveRender.started host t (VMap fields)
                   = Some (if s =? 0 then "N/A" else LiveRender.isoTime (t - s * 1000))).
  { intros t. unfold LiveRender.started. simpl. rewrite Hcm. simpl. rewrite Hs. simpl.
    destruct (s =? 0); reflexivity. }
  split; [apply H |]. split; [| split; reflexivity].
  rewrite !H. destruct (s =? 0); [reflexivity |].
  replace (now + 86400000 * k - s * 1000) with (now - s * 1000 + 86400000 * k) by lia.
  by rewrite isoTime_day.
Qed.

Lemma started_elapsed_witness :
  LiveRender.started LiveScore.plain_host 1700003723000
    (VMap [("current_map", VMap [("start", VNum 1700000000)])])
  = Some "01:02:03".
Proof.
  pose proof (started_elapsed LiveScore.plain_host 1700003723000 1700000000 0
                [("current_map", VMap [("start", VNum 1700000000)])]
                [("start", VNum 1700000000)] eq_refl eq_refl ltac:(lia) ltac:(lia))
    as (H & _).
  rewrite H. reflexivity.
Defined.

(** ** The player filter: how often a name is offered *)

Lemma count_occ_filter_absent (data : list GameTable.Player) (pf : list string)
    (name : string) :
  count_occ String.string_dec
    (List.filter (λ n, negb (existsb (λ p, String.eqb (GameTable.player p) n) data)) pf)
    name
  = if existsb (λ p, String.eqb (GameTable.player p) name) data
    then 0%nat else count_occ String.string_dec pf name.
Proof.
  induction pf as [| x pf IH]; simpl.
  - by destruct (existsb _ data).
  - destruct (existsb (λ p, String.eqb (GameTable.player p) x) data) eqn:Hx; simpl.
    + rewrite IH. destruct (String.string_dec x name) as [-> |]; [| done].
      by rewrite Hx.
    + rewrite IH. destruct (String.string_dec x name) as [-> |]; [| done].
      by rewrite Hx.
Qed.

(** A name of the current dataset is offered as often as the dataset holds
    it, whether it is selected or not: the selection adds no second option
    for it.  A name that the dataset lacks is offered as often as the
    selection holds it. *)
Theorem playerFilterOptions_count (data : list GameTable.Player) (pf : list string)
    (name : string) :
  count_occ String.string_dec
    (GameTable.value <$> GameTable.playerFilterOptions data pf) name
  = if bool_decide (name ∈ GameTable.player <$> data)
    then count_occ String.string_dec (GameTable.player <$> data) name
    else count_occ String.string_dec pf name.
Proof.
  rewrite playerFilterOptions_values, count_occ_app, count_occ_filter_absent.
  destruct (existsb _ data) eqn:Hex.
  - apply existsb_player in Hex. rewrite bool_decide_eq_true_2 by exact Hex. apply Nat.add_0_r.
  - assert (Hnot : name ∉ GameTable.player <$> data).
    { intros Hin. apply existsb_player in Hin. congruence. }
    rewrite bool_decide_eq_false_2 by exact Hnot.
    rewrite (proj1 (count_occ_not_In _ _ _)); [done |].
    intros Hin. by apply list_elem_of_In in Hin.
Qed.

(** ** The team counts *)

Lemma teamCounts_cons (teamOf : GameTable.Player → string) (p : GameTable.Player)
    (data : list GameTable.Player) :
  sum_list (TableRender.teamCounts teamOf (p :: data))
  = ((if bool_decide (teamOf p ∈ TableRender.teamOptions) then 1 else 0)
     + sum_list (TableRender.teamCounts teamOf data))%nat.
Proof.
  unfold TableRender.teamCounts, TableRender.teamOptions.
  cbn [fmap list_fmap sum_list List.filter].
  destruct (decide (teamOf p ∈ ["axis"; "allies"; "mixed"; "unknown"])) as [Hin | Hnot].
  - rewrite bool_decide_eq_true_2 by exact Hin.
    repeat (apply elem_of_cons in Hin as [-> | Hin]; [cbn; lia |]).
    by apply elem_of_nil in Hin.
  - rewrite bool_decide_eq_false_2 by exact Hnot.
    destruct (String.eqb_spec (teamOf p) "axis") as [H1 | H1];
      [rewrite H1 in Hnot; destruct Hnot; rewrite !elem_of_cons; auto |].
    destruct (String.eqb_spec (teamOf p) "allies") as [H2 | H2];
      [rewrite H2 in Hnot; destruct Hnot; rewrite !elem_of_cons; auto |].
    destruct (String.eqb_spec (teamOf p) "mixed") as [H3 | H3];
      [rewrite H3 in Hnot; destruct Hnot; rewrite !elem_of_cons; auto |].
    destruct (String.eqb_spec (teamOf p) "unknown") as [H4 | H4];
      [rewrite H4 in Hnot; destruct Hnot; rewrite !elem_of_cons; auto |].
    cbn. lia.
Qed.

(** The four team counts add up to the number of rows whose team is one of
    the four options; they add up to the number of all rows when the
    classifier only answers with these options, so that no row is counted
    twice and none is left out. *)
Theorem teamCounts_sum (teamOf : GameTable.Player → string) (data : list GameTable.Player) :
  length (TableRender.teamCounts teamOf data) = 4%nat
  ∧ sum_list (TableRender.teamCounts teamOf data)
    = length (List.filter (λ p, bool_decide (teamOf p ∈ TableRender.teamOptions)) data)
  ∧ (Forall (λ p, teamOf p ∈ TableRender.teamOptions) data →
     sum_list (TableRender.teamCounts teamOf data) = length data).
Proof.
  split; [reflexivity |].
  assert (Hsum : sum_list (TableRender.teamCounts teamOf data)
                 = length (List.filter
                             (λ p, bool_decide (teamOf p ∈ TableRender.teamOptions)) data)).
  { induction data as [| p data IH]; [reflexivity |].
    rewrite teamCounts_cons, IH. simpl.
    destruct (bool_decide _); simpl; lia. }
  split; [exact Hsum |].
  intros Hall. rewrite Hsum. clear Hsum.
  induction Hall as [| p data Hp Hall IH]; [reflexivity |].
  simpl. rewrite bool_decide_eq_true_2 by exact Hp. simpl. by rewrite IH.
Qed.

(** ** The focus effect on the rendered table *)

Lemma row_id_inj (a b : string) : "row-" +:+ a = "row-" +:+ b → a = b.
Proof. intros [=]. done. Qed.

Lemma imap_rows_entries (h : nat → nat) (rows : list GameTable.Player) :
  omap (λ r, match r with
             | TableRender.PlayerRow eid cls _ _ => Some (eid, cls)
             | TableRender.Placeholder _ => None
             end)
    (imap (λ index row,
             TableRender.PlayerRow ("row-" +:+ GameTable.player_id row)
               ["text-sm"; "h-10"] (h index) row)
       rows)
  = (λ row, ("row-" +:+ GameTable.player_id row, ["text-sm"; "h-10"])) <$> rows.
Proof.
  revert h. induction rows as [| r rows IH]; intros h; [reflexivity |].
  cbn. f_equal. apply (IH (h ∘ S)).
Qed.

Lemma tableBody_entries (columns : list GameTable.ColumnDef) (rows : list GameTable.Player) :
  omap (λ r, match r with
             | TableRender.PlayerRow eid cls _ _ => Some (eid, cls)
             | TableRender.Placeholder _ => None
             end)
    (TableRender.tableBody columns rows)
  = (λ row, ("row-" +:+ GameTable.player_id row, ["text-sm"; "h-10"])) <$> rows.
Proof.
  unfold TableRender.tableBody. destruct rows as [| r0 rows0]; [reflexivity |].
  apply (imap_rows_entries (λ index, (index + 1)%nat)).
Qed.

(** The rows of the document are the rows of the row model: an element with
    the id of a player exists exactly when the player is displayed, and it
    has the classes of a table row. *)
Lemma document_lookup (columns : list GameTable.ColumnDef) (rows : list GameTable.Player)
    (pid : string) :
  TableRender.document (TableRender.tableBody columns rows) !! ("row-" +:+ pid)
  = if bool_decide (pid ∈ GameTable.player_id <$> rows)
    then Some ["text-sm"; "h-10"] else None.
Proof.
  unfold TableRender.document. rewrite tableBody_entries.
  destruct (decide (pid ∈ GameTable.player_id <$> rows)) as [Hin | Hnot].
  - rewrite bool_decide_eq_true_2 by exact Hin.
    destruct (list_to_map _ !! _) as [cls |] eqn:Hl.
    + apply elem_of_list_to_map_2 in Hl.
      apply list_elem_of_fmap in Hl as (row & [= _ ->] & _). reflexivity.
    + apply not_elem_of_list_to_map in Hl. destruct Hl.
      rewrite <- list_fmap_compose.
      apply list_elem_of_fmap in Hin as (row & -> & Hrow).
      apply list_elem_of_fmap. by exists row.
  - rewrite bool_decide_eq_false_2 by exact Hnot.
    apply not_elem_of_list_to_map. rewrite <- list_fmap_compose.
    intros Hin. apply list_elem_of_fmap in Hin as (row & Heq & Hrow).
    apply row_id_inj in Heq as ->. apply Hnot.
    apply list_elem_of_fmap. by exists row.
Qed.

(** On a page that shows the table body for some row model: a focus request
    for a displayed player scrolls to the row of that player and
    highlights it; a request for a player who is not displayed, for
    instance because a filter hides the row, scrolls nothing, highlights
    nothing, sets no callback and only resets the focused id. *)
Theorem focus_finds_displayed_rows (columns : list GameTable.ColumnDef)
    (rows : list GameTable.Player) (p : GameTable.Page) (pid : string) :
  GameTable.elements p = TableRender.document (TableRender.tableBody columns rows) →
  (pid ∈ GameTable.player_id <$> rows →
     GameTable.scrolled (GameTable.requestFocus pid p)
     = ("row-" +:+ pid) :: GameTable.scrolled p
     ∧ (∀ c, c ∈ GameTable.row_classes pid (GameTable.requestFocus pid p)
             ↔ c ∈ ["text-sm"; "h-10"] ∨ c ∈ GameTable.style))
  ∧ (pid ∉ GameTable.player_id <$> rows →
     GameTable.requestFocus pid p = GameTable.setFocusedPlayerId None p).
Proof.
  intros Hdoc. split.
  - intros Hin.
    assert (Hrow : GameTable.elements p !! ("row-" +:+ pid) = Some ["text-sm"; "h-10"]).
    { rewrite Hdoc, document_lookup. by rewrite bool_decide_eq_true_2. }
    rewrite (requestFocus_found p pid _ Hrow). split; [reflexivity |].
    intros c. unfold GameTable.row_classes. cbn [GameTable.elements].
    rewrite lookup_insert_eq. cbn [default]. apply elem_of_classList_add.
  - intros Hnot. apply requestFocus_missing.
    rewrite Hdoc, document_lookup. by rewrite bool_decide_eq_false_2.
Qed.

Lemma focus_finds_displayed_rows_witness :
  GameTable.scrolled (GameTable.requestFocus "2" GameTable.threeRows) = ["row-2"]
  ∧ GameTable.requestFocus "9" GameTable.threeRows = GameTable.threeRows.
Proof.
  destruct (focus_finds_displayed_rows (GameTable.columns GameTable.threePlayers)
              (GameTable.data GameTable.threePlayers) GameTable.threeRows "2" eq_refl)
    as [Hshown _].
  destruct (focus_finds_displayed_rows (GameTable.columns GameTable.threePlayers)
              (GameTable.data GameTable.threePlayers) GameTable.threeRows "9" eq_refl)
    as [_ Hhidden].
  split.
  - apply Hshown. vm_compute. repeat constructor.
  - rewrite Hhidden; [reflexivity |].
    intros Hin. vm_compute in Hin.
    repeat (apply elem_of_cons in Hin as [[=] | Hin]). by apply elem_of_nil in Hin.
Defined.

(** ** The highlight over time *)

Lemma List_filter_all {A : Type} (f : A → bool) (l : list A) :
  Forall (λ x, f x = true) l → List.filter f l = l.
Proof.
  induction 1 as [| x l Hx _ IH]; simpl; [done |]. by rewrite Hx, IH.
Qed.

Lemma List_filter_none {A : Type} (f : A → bool) (l : list A) :
  Forall (λ x, f x = false) l → List.filter f l = [].
Proof.
  induction 1 as [| x l Hx _ IH]; simpl; [done |]. by rewrite Hx, IH.
Qed.

Lemma classList_add_app (tokens cls : list string) :
  ∃ extra, GameTable.classList_add tokens cls = cls ++ extra
           ∧ Forall (λ c, c ∈ tokens) extra.
Proof.
  unfold GameTable.classList_add. revert cls.
  induction tokens as [| t tokens IH]; intros cls; simpl.
  - exists []. by rewrite app_nil_r.
  - destruct (GameTable.has_class t cls).
    + destruct (IH cls) as (extra & -> & Hextra). exists extra. split; [done |].
      eapply Forall_impl; [exact Hextra |]. intros c Hc. by apply elem_of_cons; right.
    + destruct (IH (cls ++ [t])) as (extra & -> & Hextra). exists (t :: extra).
      split; [by rewrite <- app_assoc |].
      constructor; [by apply elem_of_cons; left |].
      eapply Forall_impl; [exact Hextra |]. intros c Hc. by apply elem_of_cons; right.
Qed.

Lemma classList_remove_plain_id (cls : list string) :
  GameTable.plain cls → GameTable.classList_remove GameTable.style cls = cls.
Proof.
  intros Hplain. apply List_filter_all, Forall_forall. intros c Hc.
  apply negb_true_iff. destruct (GameTable.has_class c GameTable.style) eqn:E; [| done].
  apply has_class_elem_of in E. by destruct (Hplain c E).
Qed.

(** Removing the highlight undoes adding it, on a class list that had no
    class of the highlight. *)
Lemma classList_remove_add (cls : list string) :
  GameTable.plain cls →
  GameTable.classList_remove GameTable.style
    (GameTable.classList_add GameTable.style cls) = cls.
Proof.
  intros Hplain. destruct (classList_add_app GameTable.style cls) as (extra & -> & Hextra).
  unfold GameTable.classList_remove. rewrite List.filter_app.
  fold (GameTable.classList_remove GameTable.style cls).
  rewrite (classList_remove_plain_id cls Hplain).
  rewrite List_filter_none; [by rewrite app_nil_r |].
  eapply Forall_impl; [exact Hextra |]. intros c Hc. simpl in Hc.
  apply negb_false_iff, has_class_elem_of, Hc.
Qed.

(** After callbacks aimed at an element have run, the element holds the
    class list it had with the highlight removed, and holds it unchanged if
    no callback was aimed at it. *)
Lemma foldl_fire_result (ts : list (Z * string)) (els : gmap string (list string))
    (eid : string) (cls : list string) :
  els !! eid = Some cls →
  foldl GameTable.fire els ts !! eid
  = Some (if existsb (λ t, String.eqb t.2 eid) ts
          then GameTable.classList_remove GameTable.style cls else cls).
Proof.
  revert els cls. induction ts as [| t ts IH]; intros els cls Hcls; simpl; [done |].
  destruct (String.eqb_spec t.2 eid) as [Heq | Hne]; simpl.
  - rewrite (IH _ (GameTable.classList_remove GameTable.style cls)).
    + destruct (existsb _ ts); [| done].
      f_equal. apply classList_remove_plain_id, classList_remove_plain.
    + rewrite fire_lookup, decide_True by exact Heq. by rewrite Hcls.
  - apply IH. rewrite fire_lookup, decide_False by exact Hne. exact Hcls.
Qed.

(** A row whose class list has no class of the highlight gets its class
    list back: 2000 milliseconds or more after the focus request the row
    has exactly the classes it had before, whatever callbacks of earlier
    requests were pending. *)
Theorem highlight_round_trip (p : GameTable.Page) (pid : string) (cls : list string)
    (dt : Z) :
  GameTable.elements p !! ("row-" +:+ pid) = Some cls →
  GameTable.plain cls →
  2000 ≤ dt →
  GameTable.row_classes pid (GameTable.advance dt (GameTable.requestFocus pid p)) = cls
  ∧ Forall (λ t, GameTable.clock p + dt < t.1)
      (GameTable.timeouts (GameTable.advance dt (GameTable.requestFocus pid p))).
Proof.
  intros Hcls Hplain Hdt. rewrite (requestFocus_found p pid cls Hcls).
  unfold GameTable.row_classes, GameTable.advance.
  cbn [GameTable.elements GameTable.timeouts GameTable.clock]. split.
  - erewrite foldl_fire_result by apply lookup_insert_eq.
    rewrite List.filter_app, existsb_app. cbn [List.filter fst].
    assert (Hdue : (GameTable.clock p + 2000 <=? GameTable.clock p + dt) = true)
      by (apply Z.leb_le; lia).
    rewrite Hdue. cbn [existsb snd]. rewrite String.eqb_refl, orb_true_r. cbn [default].
    by apply classList_remove_add.
  - apply Forall_forall. intros t Ht. apply elem_of_List_filter in Ht as [_ Ht].
    apply negb_true_iff, Z.leb_gt in Ht. exact Ht.
Qed.

Lemma highlight_round_trip_witness :
  GameTable.row_classes "2"
    (GameTable.advance 2000 (GameTable.requestFocus "2" GameTable.threeRows))
  = ["text-sm"; "h-10"].
Proof.
  refine (proj1 (highlight_round_trip GameTable.threeRows "2" ["text-sm"; "h-10"] 2000
                   eq_refl _ ltac:(lia))).
  intros c Hc Hin.
  repeat (apply elem_of_cons in Hin as [-> | Hin];
          [repeat (apply elem_of_cons in Hc as [[=] | Hc]); by apply elem_of_nil in Hc |]).
  by apply elem_of_nil in Hin.
Defined.

Lemma foldl_fire_is_Some (ts : list (Z * string)) (els : gmap string (list string))
    (eid : string) :
  is_Some (els !! eid) → is_Some (foldl GameTable.fire els ts !! eid).
Proof.
  intros [cls Hcls]. rewrite (foldl_fire_result ts els eid cls Hcls). by eexists.
Qed.

(** A second focus request on the same row, [d] milliseconds after the
    first and before its callback ran, shows the highlight again but only
    for the remaining [2000 - d] milliseconds: the callback of the first
    request removes the classes for both. *)
Theorem second_highlight_cut_short (p : GameTable.Page) (pid : string) (cls : list string)
    (d : Z) :
  GameTable.elements p !! ("row-" +:+ pid) = Some cls →
  0 ≤ d < 2000 →
  let p2 := GameTable.requestFocus pid
              (GameTable.advance d (GameTable.requestFocus pid p)) in
  GameTable.scrolled p2 = ("row-" +:+ pid) :: ("row-" +:+ pid) :: GameTable.scrolled p
  ∧ (∀ c, c ∈ GameTable.style → c ∈ GameTable.row_classes pid p2)
  ∧ (∀ c, c ∈ GameTable.style →
          c ∉ GameTable.row_classes pid (GameTable.advance (2000 - d) p2)).
Proof.
  intros Hcls Hd p2.
  set (eid := "row-" +:+ pid) in *.
  set (p1 := GameTable.requestFocus pid p) in *.
  assert (Hp1 : p1 = _) by exact (requestFocus_found p pid cls Hcls).
  assert (Hrow1 : is_Some (GameTable.elements (GameTable.advance d p1) !! eid)).
  { unfold GameTable.advance. cbn [GameTable.elements]. apply foldl_fire_is_Some.
    rewrite Hp1. cbn [GameTable.elements]. rewrite lookup_insert_eq. by eexists. }
  destruct Hrow1 as [cls1 Hrow1].
  assert (Hp2 : p2 = _) by exact (requestFocus_found _ pid cls1 Hrow1).
  assert (Hrow2 : GameTable.elements p2 !! eid
                  = Some (GameTable.classList_add GameTable.style cls1)).
  { rewrite Hp2. cbn [GameTable.elements]. apply lookup_insert_eq. }
  split; [| split].
  - rewrite Hp2. unfold GameTable.advance. cbn [GameTable.scrolled]. by rewrite Hp1.
  - intros c Hc. unfold GameTable.row_classes. fold eid. rewrite Hrow2. cbn [default].
    apply elem_of_classList_add. by right.
  - intros c Hc. unfold GameTable.row_classes, GameTable.advance. fold eid.
    cbn [GameTable.elements].
    destruct (foldl_fire_hit
                (List.filter (λ x, x.1 <=? GameTable.clock p2 + (2000 - d))
                   (GameTable.timeouts p2))
                (GameTable.elements p2) eid _ (GameTable.clock p + 2000, eid) Hrow2)
      as (cls' & -> & Hplain').
    + assert (Hclock : GameTable.clock p2 = GameTable.clock p + d).
      { rewrite Hp2. unfold GameTable.advance. cbn [GameTable.clock]. by rewrite Hp1. }
      apply elem_of_List_filter. split.
      * rewrite Hp2. unfold GameTable.advance. cbn [GameTable.timeouts].
        apply elem_of_app. left. apply elem_of_List_filter. split.
        -- rewrite Hp1. cbn [GameTable.timeouts]. apply elem_of_app. right.
           by apply list_elem_of_singleton.
        -- rewrite Hp1. cbn [GameTable.clock fst]. apply negb_true_iff, Z.leb_gt. lia.
      * rewrite Hclock. cbn [fst]. apply Z.leb_le. lia.
    + reflexivity.
    + cbn [default]. by apply Hplain'.
Qed.

Lemma second_highlight_cut_short_witness :
  "outline" ∉ GameTable.row_classes "2"
    (GameTable.advance (2000 - 1500)
       (GameTable.requestFocus "2"
          (GameTable.advance 1500 (GameTable.requestFocus "2" GameTable.threeRows)))).
Proof.
  apply (proj2 (proj2 (second_highlight_cut_short GameTable.threeRows "2"
                         ["text-sm"; "h-10"] 1500 eq_refl ltac:(lia)))).
  unfold GameTable.style. rewrite !elem_of_cons. auto 10.
Defined.

(** ** The grouped list: order of the listing *)

Lemma stable_sort_sorted_id {A : Type} (cmp : A → A → comparison) (l : list A) :
  StronglySorted (Sorting.precedes cmp) l → Sorting.stable_sort cmp l = l.
Proof.
  induction 1 as [| x l Hs IH Hx]; simpl; [done |].
  rewrite IH. destruct Hx as [| y l Hxy _]; simpl; [done |].
  unfold Sorting.precedes in Hxy. by rewrite Hxy.
Qed.

Lemma NoDup_keys_value {V : Type} (l : list (string * V)) (k : string) (v1 v2 : V) :
  NoDup l.*1 → (k, v1) ∈ l → (k, v2) ∈ l → v1 = v2.
Proof.
  induction l as [| [k' v'] l IH]; simpl; intros Hnd H1 H2.
  - by apply elem_of_nil in H1.
  - apply NoDup_cons in Hnd as [Hk' Hnd].
    apply elem_of_cons in H1 as [H1 | H1], H2 as [H2 | H2].
    + congruence.
    + destruct Hk'. injection H1 as -> ->. apply list_elem_of_fmap. by exists (k', v2).
    + destruct Hk'. injection H2 as -> ->. apply list_elem_of_fmap. by exists (k', v1).
    + by apply IH.
Qed.

(** With [sortByKey], the listing of a mapping whose keys are distinct does
    not depend on the order in which the mapping iterates its entries: two
    mappings with the same entries are listed alike. *)
Theorem listed_by_key_canonical (data data' : SubList.breakdown) :
  data ≡ₚ data' →
  NoDup data.*1 →
  SubList.listed (SubList.Whole data) true = SubList.listed (SubList.Whole data') true.
Proof.
  intros Hperm Hnd. unfold SubList.listed. simpl.
  apply (StronglySorted_unique_strong SubList.key_le).
  - intros [k1 v1] [k2 v2] H1 H2 Hle Hge.
    unfold SubList.key_le in Hle, Hge. simpl in Hle, Hge.
    pose proof (string_le_antisym _ _ Hle Hge) as ->.
    f_equal. apply (NoDup_keys_value data k2); [exact Hnd | |].
    + unfold SubList.sortBy_key in H1. by rewrite stable_sort_Permutation in H1.
    + unfold SubList.sortBy_key in H2.
      rewrite stable_sort_Permutation in H2. by rewrite Hperm.
  - apply sortBy_key_sorted.
  - apply sortBy_key_sorted.
  - unfold SubList.sortBy_key. by rewrite !stable_sort_Permutation.
Qed.

Lemma listed_by_key_canonical_witness :
  SubList.listed (SubList.Whole [("mp40", 3); ("kar98k", 7); ("luger", 1)]) true
  = SubList.listed (SubList.Whole [("luger", 1); ("mp40", 3); ("kar98k", 7)]) true.
Proof.
  apply listed_by_key_canonical.
  - change [("mp40", 3); ("kar98k", 7); ("luger", 1)]
      with ([("mp40", 3); ("kar98k", 7)] ++ [("luger", 1)]).
    change [("luger", 1); ("mp40", 3); ("kar98k", 7)]
      with ([("luger", 1)] ++ [("mp40", 3); ("kar98k", 7)]).
    apply Permutation_app_comm.
  - apply (bool_decide_unpack _). vm_compute. exact I.
Defined.

(** The sort is stable.  A mapping already in ascending order of key is
    listed as it is with [sortByKey]; without it, a mapping in ascending
    order of value is listed in reverse, and so is a mapping whose values
    are all equal: entries of equal value come out in the reverse of the
    order in which the mapping iterates them. *)
Theorem listed_keeps_order (data : SubList.breakdown) :
  (StronglySorted SubList.key_le data →
     SubList.listed (SubList.Whole data) true = data)
  ∧ (StronglySorted (λ x y, x.2 ≤ y.2) data →
     SubList.listed (SubList.Whole data) false = reverse data)
  ∧ ((∀ x y, x ∈ data → y ∈ data → x.2 = y.2) →
     SubList.listed (SubList.Whole data) false = reverse data).
Proof.
  assert (Hval : StronglySorted (λ x y : string * Z, x.2 ≤ y.2) data →
                 SubList.listed (SubList.Whole data) false = reverse data).
  { intros Hs. unfold SubList.listed, SubList.sort_value. simpl. f_equal.
    apply stable_sort_sorted_id.
    eapply StronglySorted_mono; [| exact Hs].
    intros x y Hxy. unfold Sorting.precedes. rewrite before_value. by apply Z.leb_le. }
  split; [| split; [exact Hval |]].
  - intros Hs. unfold SubList.listed, SubList.sortBy_key. simpl.
    apply stable_sort_sorted_id.
    eapply StronglySorted_mono; [| exact Hs].
    intros x y Hxy. unfold Sorting.precedes. by rewrite before_key.
  - intros Heq. apply Hval. clear Hval.
    induction data as [| x data IH]; constructor.
    + apply IH. intros a b Ha Hb. apply Heq; by apply elem_of_cons; right.
    + apply Forall_forall. intros y Hy.
      rewrite (Heq x y); [lia | by apply elem_of_cons; left | by apply elem_of_cons; right].
Qed.
